(** * mtr-gui: the traceroute engine of [src/network/mtr.py]

    A shallow embedding of [MTRTracer] (the [tracert] text parser, the scapy
    TTL prober and the [trace] dispatcher) together with the Python
    primitives it calls, and the properties of the engine proved on it.

    Modelling conventions.
    - A Python [str] is a Rocq [string]; a character is a code point in
      [0,255] (Latin-1).  Code points above 255 are outside the model.
    - A Python number that may be an [int] or a [float] (the [latency]
      field) is a rational [Q] kept in lowest terms.  The quotient of two
      integers is rounded to the nearest double, as the interpreter does,
      and raises [OverflowError] beyond the doubles; the other operations on
      floats (on the readings of the clock, on the coordinates of the
      drawing) are exact.
    - Everything the interpreter obtains from outside (the platform name,
      the subprocess, the interface list, the replies to probes, the clock)
      is read from an explicit environment record; everything it can write
      outside the call (scapy's [conf.iface], the console, the probes put on
      the wire, the clock reads) lives in an explicit world record that is
      threaded through the code.
    - A Python exception is a value of [exn]; a computation returns
      [Ok v] or [Raise e] together with the world it leaves behind. *)

From Stdlib Require Import Strings.String Strings.Ascii Lists.List.
From Stdlib Require Import ZArith NArith QArith Qround Qabs Qpower.
From Stdlib Require Import Bool Lia Lqa.
Import ListNotations.

Local Close Scope Q_scope.

Local Open Scope string_scope.
Local Open Scope list_scope.

(* ================================================================== *)
(** ** Python's text primitives, on Latin-1 code points *)

Module Py.

Definition ord (c : ascii) : N := N_of_ascii c.

Definition between (lo hi n : N) : bool := ((lo <=? n) && (n <=? hi))%N.

(** [str.isspace] of one character; also the class [\s] of [re]. *)
Definition isspace (c : ascii) : bool :=
  let n := ord c in
  between 9 13 n || between 28 32 n || (n =? 133)%N || (n =? 160)%N.

(** [str.isdecimal] of one character; also the class [\d] of [re] and the
    digits [int] accepts. *)
Definition isdecimal (c : ascii) : bool := between 48 57 (ord c).

(** [str.isdigit] of one character: the decimal digits and the superscript
    digits U+00B2, U+00B3 and U+00B9. *)
Definition isdigit (c : ascii) : bool :=
  let n := ord c in
  isdecimal c || (n =? 178)%N || (n =? 179)%N || (n =? 185)%N.

(** The line boundaries of [str.splitlines]. *)
Definition islinebreak (c : ascii) : bool :=
  let n := ord c in
  between 10 13 n || between 28 30 n || (n =? 133)%N.

Definition lower_char (c : ascii) : ascii :=
  let n := ord c in
  if between 65 90 n || (between 192 222 n && negb (n =? 215)%N)
  then ascii_of_N (n + 32) else c.

Fixpoint lower (s : string) : string :=
  match s with
  | EmptyString => EmptyString
  | String c s' => String (lower_char c) (lower s')
  end.

Fixpoint forallb_str (p : ascii -> bool) (s : string) : bool :=
  match s with
  | EmptyString => true
  | String c s' => p c && forallb_str p s'
  end.

Definition is_empty (s : string) : bool :=
  match s with EmptyString => true | _ => false end.

(** [s.isdigit()]: at least one character and all of them digits. *)
Definition str_isdigit (s : string) : bool :=
  negb (is_empty s) && forallb_str isdigit s.

(** [s.startswith(p)]. *)
Definition startswith (s p : string) : bool := String.prefix p s.

Fixpoint lstrip (s : string) : string :=
  match s with
  | EmptyString => EmptyString
  | String c s' => if isspace c then lstrip s' else s
  end.

Fixpoint rstrip (s : string) : string :=
  match s with
  | EmptyString => EmptyString
  | String c s' =>
      let r := rstrip s' in
      if is_empty r && isspace c then EmptyString else String c r
  end.

(** [s.strip()]. *)
Definition strip (s : string) : string := rstrip (lstrip s).

(** [s.split()]: the maximal runs of characters that are not white space.
    [cur] is the token being read, if any. *)
Fixpoint split_go (cur : option string) (s : string) : list string :=
  match s with
  | EmptyString => match cur with Some t => [t] | None => [] end
  | String c s' =>
      if isspace c then
        match cur with
        | Some t => t :: split_go None s'
        | None => split_go None s'
        end
      else
        match cur with
        | Some t => split_go (Some (t ++ String c EmptyString)%string) s'
        | None => split_go (Some (String c EmptyString)) s'
        end
  end.

Definition split (s : string) : list string := split_go None s.

(** [s.splitlines()]: a carriage return followed by a line feed is one
    boundary, and no empty last line is reported. [cur] is the line being
    read. *)
Fixpoint splitlines_go (cur : string) (s : string) : list string :=
  match s with
  | EmptyString => if is_empty cur then [] else [cur]
  | String c s' =>
      if islinebreak c then
        cur :: match s' with
               | String c' s'' =>
                   if ((ord c =? 13) && (ord c' =? 10))%N
                   then splitlines_go EmptyString s''
                   else splitlines_go EmptyString s'
               | EmptyString => splitlines_go EmptyString s'
               end
      else splitlines_go (cur ++ String c EmptyString)%string s'
  end.

Definition splitlines (s : string) : list string := splitlines_go EmptyString s.

(** [int(s)] on a string without sign, blanks or underscores: the value of
    its decimal digits, and [None] (a [ValueError]) when the string is empty
    or holds a character that is not a decimal digit.  The interpreter's
    configurable limit on the number of digits ([int_max_str_digits] by
    default) is no part of the function: where a property depends on it,
    the texts are taken to be within it. *)
Fixpoint int_go (acc : Z) (s : string) : option Z :=
  match s with
  | EmptyString => Some acc
  | String c s' =>
      if isdecimal c then int_go (10 * acc + (Z.of_N (ord c) - 48)) s'
      else None
  end.

Definition int (s : string) : option Z :=
  if is_empty s then None else int_go 0 s.

End Py.

(* ================================================================== *)
(** ** The fragment of [re] used by the parser

    A backtracking matcher with greedy quantifiers and one capture group,
    as [re] runs the two patterns of the parser. *)

Module Re.

Inductive atom : Type :=
| Lit (c : ascii)     (* a literal character *)
| Digit               (* \d *)
| Space.              (* \s *)

Inductive regex : Type :=
| One (a : atom)
| Opt (a : atom)              (* a?  greedy *)
| Star (a : atom)             (* a*  greedy *)
| Plus (a : atom)             (* a+  greedy *)
| Cat (r1 r2 : regex)
| Group (r : regex).          (* ( r ), the group numbered 1 *)

Definition atom_ok (a : atom) (c : ascii) : bool :=
  match a with
  | Lit c' => Ascii.eqb c' c
  | Digit => Py.isdecimal c
  | Space => Py.isspace c
  end.

(** The part of [s] read when [rest] is what is left of it. *)
Definition consumed (s rest : string) : string :=
  substring 0 (String.length s - String.length rest) s.

Section Matcher.
Context {A : Type}.

(** Greedy iteration of an atom: take as many characters as possible and
    give them back one at a time while the continuation fails. *)
Fixpoint star_atom (a : atom) (s : string) (k : string -> option A)
  : option A :=
  match s with
  | String c s' =>
      if atom_ok a c then
        match star_atom a s' k with
        | Some x => Some x
        | None => k s
        end
      else k s
  | EmptyString => k s
  end.

(** [rmatch r s g k]: match [r] at the start of [s]; [g] is the text of
    group 1 so far; [k] receives what is left and the group. *)
Fixpoint rmatch (r : regex) (s : string) (g : option string)
         (k : string -> option string -> option A) : option A :=
  match r with
  | One a =>
      match s with
      | String c s' => if atom_ok a c then k s' g else None
      | EmptyString => None
      end
  | Opt a =>
      match s with
      | String c s' =>
          if atom_ok a c then
            match k s' g with
            | Some x => Some x
            | None => k s g
            end
          else k s g
      | EmptyString => k s g
      end
  | Star a => star_atom a s (fun s' => k s' g)
  | Plus a =>
      match s with
      | String c s' =>
          if atom_ok a c then star_atom a s' (fun s'' => k s'' g) else None
      | EmptyString => None
      end
  | Cat r1 r2 => rmatch r1 s g (fun s1 g1 => rmatch r2 s1 g1 k)
  | Group r1 => rmatch r1 s g (fun s1 _ => k s1 (Some (consumed s s1)))
  end.
End Matcher.

(** The text of group 1, empty when the group took no part in the match. *)
Definition group_text (g : option string) : string :=
  match g with
  | Some t => t
  | None => EmptyString
  end.

(** A match found at the start of [s]: the text of group 1 and what is left
    of [s] after the match. *)
Definition match_at (r : regex) (s : string) : option (string * string) :=
  rmatch r s None (fun rest g => Some (group_text g, rest)).

(** [r.search(s)]: the match at the leftmost position that has one. *)
Fixpoint search (r : regex) (s : string) : option (string * string) :=
  match match_at r s with
  | Some m => Some m
  | None =>
      match s with
      | String _ s' => search r s'
      | EmptyString => None
      end
  end.

(** [r.findall(s)] for a pattern with one group: the group of each match,
    left to right, matches not overlapping.  [skip] counts the characters of
    the last match that are still to be passed over. *)
Fixpoint findall_go (r : regex) (s : string) (skip : nat) : list string :=
  match s with
  | EmptyString =>
      match skip, match_at r s with
      | O, Some (g, _) => [g]
      | _, _ => []
      end
  | String _ s' =>
      match skip with
      | S n => findall_go r s' n
      | O =>
          match match_at r s with
          | Some (g, rest) =>
              g :: findall_go r s'
                     (String.length s - String.length rest - 1)
          | None => findall_go r s' 0
          end
      end
  end.

Definition findall (r : regex) (s : string) : list string := findall_go r s 0.

(** The texts a pattern denotes, whatever the order in which the matcher
    tries them: [matches r p g g'] when [r] reads exactly [p], turning the
    text [g] of group 1 into [g']. *)
Inductive matches : regex -> string -> option string -> option string -> Prop :=
| MOne a c g :
    atom_ok a c = true -> matches (One a) (String c EmptyString) g g
| MOptNone a g : matches (Opt a) EmptyString g g
| MOptSome a c g :
    atom_ok a c = true -> matches (Opt a) (String c EmptyString) g g
| MStar a p g :
    Py.forallb_str (atom_ok a) p = true -> matches (Star a) p g g
| MPlus a p g :
    p <> EmptyString -> Py.forallb_str (atom_ok a) p = true ->
    matches (Plus a) p g g
| MCat r1 r2 p1 p2 g g1 g2 :
    matches r1 p1 g g1 -> matches r2 p2 g1 g2 ->
    matches (Cat r1 r2) (p1 ++ p2)%string g g2
| MGroup r p g g1 :
    matches r p g g1 -> matches (Group r) p g (Some p).

(** [p] occurs in [s] between [pre] and [post]. *)
Definition occurs (pre p post s : string) : Prop :=
  s = (pre ++ p ++ post)%string.

End Re.

(* ================================================================== *)
(** ** Exceptions, the world and the environment *)

Inductive exn : Type :=
| FileNotFoundError
| PermissionError
| OSError
| TimeoutExpired
| UnicodeDecodeError
| ValueError
| OverflowError
| ZeroDivisionError
| KeyboardInterrupt
| SystemExit.

(** The classes an [except Exception] clause catches. *)
Definition is_Exception (e : exn) : bool :=
  match e with
  | KeyboardInterrupt | SystemExit => false
  | _ => true
  end.

Definition exn_text (e : exn) : string :=
  match e with
  | FileNotFoundError => "FileNotFoundError"
  | PermissionError => "PermissionError"
  | OSError => "OSError"
  | TimeoutExpired => "TimeoutExpired"
  | UnicodeDecodeError => "UnicodeDecodeError"
  | ValueError => "ValueError"
  | OverflowError => "OverflowError"
  | ZeroDivisionError => "ZeroDivisionError"
  | KeyboardInterrupt => "KeyboardInterrupt"
  | SystemExit => "SystemExit"
  end.

Inductive Res (A : Type) : Type :=
| Ok (a : A)
| Raise (e : exn).
Arguments Ok {A} a.
Arguments Raise {A} e.

Definition on_ok {A B} (f : A -> B) (r : Res A) : Res B :=
  match r with
  | Ok a => Ok (f a)
  | Raise e => Raise e
  end.

(** A probe handed to [srp]: [IP(dst, ttl) / ICMP()]. *)
Record Probe : Type := mkProbe { dst : string; ttl : Z }.

(** A received packet: the source of its IP layer when it has one, and the
    source of the packet itself. *)
Record Reply : Type := mkReply { ip_src : option string; src : string }.

(** What is outside one call and can be written by it. *)
Record World : Type := mkWorld {
  conf_iface : string;        (* scapy's process-wide conf.iface *)
  console : list string;      (* lines printed *)
  wire : list Probe;          (* probes handed to srp, oldest first *)
  clock_reads : nat           (* readings of time.time() so far *)
}.

(** What a started program does. *)
Inductive Proc : Type :=
| SpawnFails (e : exn)
| Runs (seconds : Q) (returncode : Z) (stdout : string).

Record CompletedProcess : Type :=
  mkCompleted { cp_returncode : Z; cp_stdout : string }.

(** What the platform answers. *)
Record Env : Type := mkEnv {
  sys_platform : string;                      (* sys.platform *)
  process : list string -> Proc;              (* the program run with argv *)
  if_list : Res (list string);                (* get_if_list() *)
  answer : string -> Probe -> Q -> Res (option Reply);
                                   (* first answer srp collects on an interface *)
  time_at : nat -> Q                          (* the n-th time.time() *)
}.

(** Computations: a result or an exception, and the world left behind. *)
Definition M (A : Type) : Type := World -> Res A * World.

Definition ret {A} (a : A) : M A := fun w => (Ok a, w).

Definition raise {A} (e : exn) : M A := fun w => (Raise e, w).

Definition bind {A B} (m : M A) (f : A -> M B) : M B :=
  fun w =>
    match m w with
    | (Ok a, w') => f a w'
    | (Raise e, w') => (Raise e, w')
    end.

(** [try: m  except Exception as e: h e]. *)
Definition try_except {A} (m : M A) (h : exn -> M A) : M A :=
  fun w =>
    match m w with
    | (Ok a, w') => (Ok a, w')
    | (Raise e, w') => if is_Exception e then h e w' else (Raise e, w')
    end.

Definition lift {A} (r : Res A) : M A := fun w => (r, w).

Declare Scope py_scope.
Delimit Scope py_scope with py.
Notation "x <- m ;; k" := (bind m (fun x => k))
  (at level 61, m at next level, right associativity) : py_scope.
Notation "m ;; k" := (bind m (fun _ => k))
  (at level 61, right associativity) : py_scope.
Local Open Scope py_scope.

(** The world after [line] is printed. *)
Definition printed (w : World) (line : string) : World :=
  mkWorld (conf_iface w) (console w ++ [line]) (wire w) (clock_reads w).

Definition print (line : string) : M unit := fun w => (Ok tt, printed w line).

Definition set_conf_iface (i : string) : M unit :=
  fun w => (Ok tt, mkWorld i (console w) (wire w) (clock_reads w)).

Section Platform.
Variable E : Env.

(** [subprocess.run(argv, capture_output=True, text=True, timeout=t)]. *)
Definition subprocess_run (argv : list string) (timeout : Q)
  : M CompletedProcess :=
  match process E argv with
  | SpawnFails e => raise e
  | Runs d rc out =>
      if Qle_bool d timeout then ret (mkCompleted rc out)
      else raise TimeoutExpired
  end.

(** [get_if_list()]. *)
Definition get_if_list : M (list string) := lift (if_list E).

(** [time.time()]. *)
Definition time_time : M Q :=
  fun w => (Ok (time_at E (clock_reads w)),
            mkWorld (conf_iface w) (console w) (wire w) (S (clock_reads w))).

(** [srp(Ether() / pkt, verbose=0, timeout=t)], reduced to what the code
    reads of it: [None] when [ans] is empty, else the packet received in
    [ans[0]].  The call names no interface, so the probe goes out on
    [conf.iface]. *)
Definition srp (pkt : Probe) (timeout : Q) : M (option Reply) :=
  fun w => (answer E (conf_iface w) pkt timeout,
            mkWorld (conf_iface w) (console w) (wire w ++ [pkt])
                    (clock_reads w)).

End Platform.

(* ================================================================== *)
(** ** The quotient of two integers as a float *)

Module Float.

Local Open Scope Q_scope.

(** The integer nearest to [q], the even one of two that are as near. *)
Definition round_even (q : Q) : Z :=
  let f := Qfloor q in
  match Qcompare (q - inject_Z f) (1 # 2) with
  | Lt => f
  | Gt => (f + 1)%Z
  | Eq => if Z.even f then f else (f + 1)%Z
  end.

(** The exponent of [q], positive: the [e] with [2^e <= q < 2^(e+1)]. *)
Definition ilog2 (q : Q) : Z :=
  let e0 := (Z.log2 (Qnum q) - Z.log2 (Z.pos (Qden q)))%Z in
  if Qle_bool (2 ^ e0) q then e0 else (e0 - 1)%Z.

(** The distance between the doubles around [q], positive: [2^(e-52)] where
    [e] is the exponent of [q], and [2^(-1074)] below the normal doubles. *)
Definition quantum (q : Q) : Q := 2 ^ (Z.max (ilog2 q) (-1022) - 52).

(** The double nearest to [q], not negative, the one with an even mantissa
    of two that are as near; [None] when it would be [2^1024] or more. *)
Definition nearest (q : Q) : option Q :=
  if Qle_bool q 0 then Some 0
  else
    let r := inject_Z (round_even (q / quantum q)) * quantum q in
    if Qle_bool (2 ^ 1024) r then None else Some (Qred r).

(** [a / b] on integers: the quotient correctly rounded. *)
Definition true_div (a b : Z) : Res Q :=
  if (b =? 0)%Z then Raise ZeroDivisionError
  else
    let q := inject_Z a / inject_Z b in
    if Qle_bool 0 q then
      match nearest q with
      | Some r => Ok r
      | None => Raise OverflowError
      end
    else
      match nearest (- q) with
      | Some r => Ok (Qred (- r))
      | None => Raise OverflowError
      end.

(** The numbers that are doubles: a mantissa below [2^53] in absolute value
    and an exponent from -1074 to 971. *)
Definition is_double (x : Q) : Prop :=
  exists m k : Z,
    (Z.abs m < 2 ^ 53)%Z /\ (-1074 <= k <= 971)%Z /\ x == inject_Z m * 2 ^ k.

End Float.

(* ================================================================== *)
(** ** [class MTRTracer] *)

(** One entry of [hops]: the dictionary with keys hop, ip and latency. *)
Record Hop : Type := mkHop { hop : Z; ip : string; latency : Q }.

Record MTRTracer : Type := mkTracer {
  target_host : string;
  max_hops : Z;
  method : string
}.

(** [MTRTracer(target_host)], with the defaults of [__init__]. *)
Definition init (target : string) : MTRTracer := mkTracer target 30 "tracert".

(** [re.compile(r"(\d+\.\d+\.\d+\.\d+)")]. *)
Definition ip_re : Re.regex :=
  Re.Group
    (Re.Cat (Re.Plus Re.Digit) (Re.Cat (Re.One (Re.Lit "."))
    (Re.Cat (Re.Plus Re.Digit) (Re.Cat (Re.One (Re.Lit "."))
    (Re.Cat (Re.Plus Re.Digit) (Re.Cat (Re.One (Re.Lit "."))
    (Re.Plus Re.Digit))))))).

(** [re.compile(r"<?(\d+)\s*ms")]. *)
Definition rtt_re : Re.regex :=
  Re.Cat (Re.Opt (Re.Lit "<"))
  (Re.Cat (Re.Group (Re.Plus Re.Digit))
  (Re.Cat (Re.Star Re.Space)
  (Re.Cat (Re.One (Re.Lit "m")) (Re.One (Re.Lit "s"))))).

(** [[int(m) for m in ms]]; [None] when some [int] raises. *)
Fixpoint ints (ms : list string) : option (list Z) :=
  match ms with
  | [] => Some []
  | m :: ms' =>
      match Py.int m, ints ms' with
      | Some n, Some ns => Some (n :: ns)
      | _, _ => None
      end
  end.

Definition sum (ns : list Z) : Z := fold_right Z.add 0%Z ns.

Definition len {A} (l : list A) : Z := Z.of_nat (List.length l).

(** [sum(rtts) / len(rtts)] if [rtts], else [-1]. *)
Definition latency_of (rtts : list Z) : Res Q :=
  match rtts with
  | [] => Ok (-1)%Q
  | _ => Float.true_div (sum rtts) (len rtts)
  end.

(** [ip_match.group(1) if ip_match else "*"]. *)
Definition ip_of (line : string) : string :=
  match Re.search ip_re line with
  | Some (g, _) => g
  | None => "*"
  end.

(** What one round of the loop of [_tracert_trace] makes of a line, up to
    [hops.append]: the line is passed over ([continue]), or [int] or the
    division raises, or a record is built. *)
Inductive line_outcome : Type :=
| Skip
| Bad (e : exn)
| Rec (h : Hop).

Definition hop_of_line (line0 : string) : line_outcome :=
  let line := Py.strip line0 in
  if Py.is_empty line then Skip
  else if Py.startswith line "Tracing route"
          || Py.startswith (Py.lower line) "over a maximum" then Skip
  else
    match Py.split line with
    | [] => Skip
    | p0 :: _ =>
        if negb (Py.str_isdigit p0) then Skip
        else
          match Py.int p0 with
          | None => Bad ValueError
          | Some hop_num =>
              let ip_addr := ip_of line in
              match ints (Re.findall rtt_re line) with
              | None => Bad ValueError
              | Some rtts =>
                  match latency_of rtts with
                  | Raise e => Bad e
                  | Ok latency => Rec (mkHop hop_num ip_addr latency)
                  end
              end
          end
    end.

(** The loop [for line in out] of [_tracert_trace], with [break] when the
    address just appended is the target. *)
Fixpoint scan (target : string) (out : list string) (hops : list Hop)
  : Res (list Hop) :=
  match out with
  | [] => Ok hops
  | line :: rest =>
      match hop_of_line line with
      | Skip => scan target rest hops
      | Bad e => Raise e
      | Rec h =>
          let hops' := hops ++ [h] in
          if String.eqb (ip h) target then Ok hops'
          else scan target rest hops'
      end
  end.

(** The parser on the text of the subprocess's standard output. *)
Definition parse (target : string) (text : string) : Res (list Hop) :=
  scan target (Py.splitlines text) [].

Section Tracer.
Variable E : Env.
Variable self : MTRTracer.

Definition tracert_argv : list string :=
  ["tracert"; "-d"; "-w"; "200"; target_host self].

Definition tracert_timeout : Q := 60.

(** The [try] block covers the subprocess and [splitlines] only; its
    [except] clause returns the empty [hops] at once ([None] below). *)
Definition _tracert_trace : M (list Hop) :=
  r <- try_except
         (proc <- subprocess_run E tracert_argv tracert_timeout ;;
          ret (Some (Py.splitlines (cp_stdout proc))))
         (fun e => print ("tracert failed: " ++ exn_text e) ;; ret None) ;;
  match r with
  | None => ret []
  | Some out => lift (scan (target_host self) out [])
  end.

(** [reply[IP].src if reply.haslayer(IP) else reply.src]. *)
Definition reply_addr (reply : Reply) : string :=
  match ip_src reply with
  | Some a => a
  | None => src reply
  end.

(** The loop [for ttl in range(1, self.max_hops + 1)] of [_scapy_trace]:
    [n] rounds are left, the next one with [t]. *)
Fixpoint probe_loop (n : nat) (t : Z) (hops : list Hop) : M (list Hop) :=
  match n with
  | O => ret hops
  | S n' =>
      start_time <- time_time E ;;
      ans <- srp E (mkProbe (target_host self) t) 2 ;;
      now <- time_time E ;;
      let latency := Qred ((now - start_time) * 1000) in
      match ans with
      | None => probe_loop n' (t + 1) (hops ++ [mkHop t "*" (-1)])
      | Some reply =>
          let ip_addr := reply_addr reply in
          let hops' := hops ++ [mkHop t ip_addr latency] in
          if String.eqb ip_addr (target_host self) then ret hops'
          else probe_loop n' (t + 1) hops'
      end
  end.

Definition _scapy_trace : M (list Hop) :=
  interfaces <- get_if_list E ;;
  match interfaces with
  | i :: _ => set_conf_iface i
  | [] => ret tt
  end ;;
  probe_loop (Z.to_nat (max_hops self)) 1 [].

Definition trace : M (list Hop) :=
  if String.eqb (method self) "tracert"
     && Py.startswith (sys_platform E) "win"
  then
    hops <- _tracert_trace ;;
    match hops with
    | _ :: _ => ret hops
    | [] => _scapy_trace
    end
  else if String.eqb (method self) "scapy" then _scapy_trace
  else _tracert_trace.

End Tracer.

(* ================================================================== *)
(** ** [gui/app.py]: the worker of [MTRApp.start_trace] *)

Module App.

(** [worker(tgt)]: the trace under [except Exception], then the hand-over
    of [hops] to [_on_trace_complete] through [self.root.after], under its
    own [except Exception].  [after] is what [self.root.after] does; the
    result is the list handed over, or [None] when the hand-over failed. *)
Definition worker (E : Env) (after : Res unit) (tgt : string)
  : M (option (list Hop)) :=
  hops <- try_except
            (trace E (init tgt))
            (fun e => print ("[debug] tracer thread error: " ++ exn_text e) ;;
                      ret []) ;;
  try_except
    (lift after ;; ret (Some hops))
    (fun e =>
       print ("[debug] failed to schedule _on_trace_complete: "
              ++ exn_text e) ;;
       ret None).

End App.

(* ================================================================== *)
(** ** [visualization/sky_jet.py]: where the hops and their labels go

    The first pass of [SkyJetVisualizer.visualize] and [draw_hop], without
    the drawing itself: the points of the path and the rectangles of the
    labels.  The sizes of the rendered texts are read from a font record. *)

Module SkyJet.

Local Open Scope Z_scope.

(** [pygame.Rect(left, top, width, height)]. *)
Record Rect : Type := mkRect { rect_x : Z; rect_y : Z; rect_w : Z; rect_h : Z }.

(** [a.colliderect(b)], as pygame 2 computes it: a rectangle without width
    or height collides with nothing. *)
Definition colliderect (a b : Rect) : bool :=
  if (rect_w a =? 0) || (rect_h a =? 0) || (rect_w b =? 0) || (rect_h b =? 0)
  then false
  else
    (Z.min (rect_x a) (rect_x a + rect_w a)
     <? Z.max (rect_x b) (rect_x b + rect_w b))
    && (Z.min (rect_y a) (rect_y a + rect_h a)
        <? Z.max (rect_y b) (rect_y b + rect_h b))
    && (Z.min (rect_x b) (rect_x b + rect_w b)
        <? Z.max (rect_x a) (rect_x a + rect_w a))
    && (Z.min (rect_y b) (rect_y b + rect_h b)
        <? Z.max (rect_y a) (rect_y a + rect_h a)).

(** [self.font]: its line height, and the width and height of the surface
    it renders for the label of a hop. *)
Record Font : Type := mkFont {
  get_height : Z;
  label_size : Hop -> Z * Z
}.

(** [int(q)]: the integer part, towards zero. *)
Definition int_of (q : Q) : Z := Z.quot (Qnum q) (Z.pos (Qden q)).

(** [rect] after [rect.y = y]. *)
Definition moved (rect : Rect) (y : Z) : Rect :=
  mkRect (rect_x rect) y (rect_w rect) (rect_h rect).

(** The loop [while any(rect.colliderect(r) for r in text_positions)] of
    [draw_hop]: [rect] moves down by [step] until it is free.  [fuel] bounds
    the number of rounds; [None] when it does not suffice. *)
Fixpoint avoid (fuel : nat) (step text_y : Z) (rect : Rect) (shift : Z)
         (text_positions : list Rect) : option Rect :=
  if existsb (colliderect rect) text_positions then
    match fuel with
    | O => None
    | S fuel' =>
        let shift' := shift + step in
        avoid fuel' step text_y (moved rect (text_y + shift')) shift'
              text_positions
    end
  else Some rect.

(** The rectangle [draw_hop] starts from, before the loop. *)
Definition first_rect (width : Z) (F : Font) (hop_data : Hop) (x y : Q)
  : Rect :=
  let (tw, th) := label_size F hop_data in
  let text_x := int_of (x + 10)%Q in
  let text_y := int_of (y - inject_Z th / 2)%Q in
  let text_x := if (width - 10 <? text_x + tw) then width - tw - 10
                else text_x in
  mkRect text_x text_y tw (th + 18).

(** [draw_hop(hop_data, x, y, text_positions)]: the list [text_positions]
    after the call, the rectangle of the label appended. *)
Definition draw_hop (fuel : nat) (width : Z) (F : Font) (hop_data : Hop)
           (x y : Q) (text_positions : list Rect) : option (list Rect) :=
  let rect := first_rect width F hop_data x y in
  match avoid fuel (get_height F + 4) (rect_y rect) rect 0 text_positions with
  | Some rect' => Some (text_positions ++ [rect'])
  | None => None
  end.

(** [min(l)] and [max(l)] on a list that is not empty: the first of the
    least, the first of the greatest. *)
Definition py_min (a : Q) (l : list Q) : Q :=
  fold_left (fun m x => if Qle_bool m x then m else x) l a.

Definition py_max (a : Q) (l : list Q) : Q :=
  fold_left (fun m x => if Qle_bool x m then m else x) l a.

(** [[h["latency"] for h in hops if h.get("latency", -1) >= 0]]. *)
Definition latencies (hops : list Hop) : list Q :=
  map latency (filter (fun h => Qle_bool 0%Q (latency h)) hops).

(** [(lat_min, lat_max)] of [visualize]. *)
Definition lat_range (hops : list Hop) : Q * Q :=
  match latencies hops with
  | [] => (0%Q, 1%Q)
  | a :: l => (py_min a l, py_max a l)
  end.

(** The point of a hop: [x] by its number, [y] by its latency, the
    highest latency at [top], timeouts at [bottom].  The constants 0.1, 0.9
    and 0.5 are the rationals they are written as. *)
Definition position (width height : Z) (total_hops : Z) (lat_min lat_max : Q)
           (hop_data : Hop) : Q * Q :=
  let top := (inject_Z height * (1 # 10))%Q in
  let bottom := (inject_Z height * (9 # 10))%Q in
  let x := ((inject_Z (hop hop_data) / inject_Z total_hops)
            * inject_Z (width - 100) + 50)%Q in
  let y :=
    if Qeq_bool (latency hop_data) (-1) then bottom
    else
      let norm :=
        if Qeq_bool lat_max lat_min then (1 # 2)%Q
        else ((latency hop_data - lat_min) / (lat_max - lat_min))%Q in
      (top + (1 - norm) * (bottom - top))%Q in
  (x, y).



(** Rounds that suffice for the loop of [draw_hop]: the distance from its
    top of the lowest edge in [text_positions]. *)
Definition lowest (text_positions : list Rect) : Z :=
  fold_right (fun r m => Z.max (Z.max (rect_y r) (rect_y r + rect_h r)) m)
             0 text_positions.

Definition enough (rect : Rect) (text_positions : list Rect) : nat :=
  (Z.to_nat (lowest text_positions
             - Z.min (rect_y rect) (rect_y rect + rect_h rect)) + 1)%nat.



End SkyJet.

(* ================================================================== *)
(** ** Notions used to state the properties *)

(** The records of all the data lines of [out], in order. *)
Fixpoint records (out : list string) : list Hop :=
  match out with
  | [] => []
  | line :: rest =>
      match hop_of_line line with
      | Rec h => h :: records rest
      | _ => records rest
      end
  end.

(** The loop of the parser without its [break]: every line is read. *)
Fixpoint scan_all (out : list string) (hops : list Hop) : Res (list Hop) :=
  match out with
  | [] => Ok hops
  | line :: rest =>
      match hop_of_line line with
      | Skip => scan_all rest hops
      | Bad e => Raise e
      | Rec h => scan_all rest (hops ++ [h])
      end
  end.

(** The fields of [s] between its dots; [cur] is the field being read. *)
Fixpoint fields_go (cur : string) (s : string) : list string :=
  match s with
  | EmptyString => [cur]
  | String c s' =>
      if Ascii.eqb c "." then cur :: fields_go EmptyString s'
      else fields_go (cur ++ String c EmptyString)%string s'
  end.

Definition is_number (s : string) : bool :=
  negb (Py.is_empty s) && Py.forallb_str Py.isdecimal s.

(** A dotted quad as the parser's pattern reads it: four runs of decimal
    digits, none empty, with a dot between them and nothing else. *)
Definition is_dotted_quad (s : string) : bool :=
  match fields_go EmptyString s with
  | [a; b; c; d] => is_number a && is_number b && is_number c && is_number d
  | _ => false
  end.

(** An address that is the sentinel comes with the sentinel latency. *)
Definition sentinel_paired (h : Hop) : bool :=
  if String.eqb (ip h) "*" then Qeq_bool (latency h) (-1) else true.



(** [t; t + 1; ...], [n] numbers. *)
Fixpoint iota (t : Z) (n : nat) : list Z :=
  match n with
  | O => []
  | S n' => t :: iota (t + 1) n'
  end.

(** [p] is a round-trip sample with number [d]: an optional [<], the
    decimal digits [d], optional white space, then [ms]. *)
Definition rtt_sample (p d : string) : Prop :=
  exists lt ws : string,
    (lt = "" \/ lt = "<") /\ is_number d = true /\
    Py.forallb_str Py.isspace ws = true /\
    p = (lt ++ d ++ ws ++ "ms")%string.

(** The number a run of decimal digits writes in base ten. *)
Fixpoint digits_value (d : string) : Z :=
  match d with
  | EmptyString => 0
  | String c d' =>
      (Z.of_N (Py.ord c) - 48) * 10 ^ Z.of_nat (String.length d')
      + digits_value d'
  end.

(** The samples of a line, with their numbers: from left to right, each the
    first that starts in what is left after the one before. *)
Inductive samples : string -> list string -> Prop :=
| samples_nil line :
    (forall pre p post d, Re.occurs pre p post line -> ~ rtt_sample p d) ->
    samples line []
| samples_cons pre p post d ds :
    rtt_sample p d ->
    (forall pre1 p1 post1 d1,
        Re.occurs pre1 p1 post1 (pre ++ p ++ post) -> rtt_sample p1 d1 ->
        (String.length pre <= String.length pre1)%nat) ->
    samples post ds ->
    samples (pre ++ p ++ post) (d :: ds).

(** The default of the interpreter's limit on the digits of a number that
    [int] reads, where it has one. *)
Definition int_max_str_digits : nat := 4300.

(** The texts of a stripped line that the parser hands to [int]: its first
    token and the numbers of its samples. *)
Definition numbers_of (line : string) : list string :=
  match Py.split line with
  | p0 :: _ => p0 :: Re.findall rtt_re line
  | [] => Re.findall rtt_re line
  end.

(** None of them is longer than the limit. *)
Definition short_numbers (line : string) : bool :=
  forallb (fun d => (String.length d <=? int_max_str_digits)%nat)
          (numbers_of line).

(** The mean of the round-trip times, exact. *)
Definition mean (rtts : list Z) : Q :=
  (inject_Z (sum rtts) / inject_Z (len rtts))%Q.

(** The probe with TTL [t], sent on [iface], gets an answer after which
    the loop of the prober goes on: none, or one from elsewhere than the
    target. *)
Definition goes_on (E : Env) (self : MTRTracer) (iface : string) (t : Z)
  : bool :=
  match answer E iface (mkProbe (target_host self) t) 2 with
  | Ok None => true
  | Ok (Some reply) =>
      negb (String.eqb (reply_addr reply) (target_host self))
  | Raise _ => false
  end.

(** So do the [n] probes from TTL [t] on. *)
Fixpoint goes_on_for (E : Env) (self : MTRTracer) (iface : string)
         (n : nat) (t : Z) : bool :=
  match n with
  | O => true
  | S n' => goes_on E self iface t && goes_on_for E self iface n' (t + 1)
  end.

(** The interface the probes of [_scapy_trace] go out on when it starts in
    [w]: the first of the list, or [conf.iface] as it is when the list is
    empty. *)
Definition probe_iface (E : Env) (w : World) : string :=
  match if_list E with
  | Ok (i :: _) => i
  | _ => conf_iface w
  end.

(** A character that [str.isdigit] does not accept. *)
Definition no_digit (c : ascii) : bool := negb (Py.isdigit c).

(** A record that stands for a probe without answer. *)
Definition timed_out (h : Hop) : Prop := h = mkHop (hop h) "*" (-1).

(** The same hop numbers and addresses, or the same exception. *)
Definition same_path (r1 r2 : Res (list Hop)) : Prop :=
  match r1, r2 with
  | Ok h1, Ok h2 => map hop h1 = map hop h2 /\ map ip h1 = map ip h2
  | Raise e1, Raise e2 => e1 = e2
  | _, _ => False
  end.

(** Two platforms that differ in their clocks only. *)
Definition same_net (E1 E2 : Env) : Prop :=
  sys_platform E1 = sys_platform E2
  /\ (forall argv, process E1 argv = process E2 argv)
  /\ if_list E1 = if_list E2
  /\ (forall i p timeout, answer E1 i p timeout = answer E2 i p timeout).

(** A record as the data model wants it: a hop number that is not
    negative, an address that is a dotted quad or the sentinel, a latency
    that is not negative or the sentinel. *)
Definition well_formed (h : Hop) : Prop :=
  (0 <= hop h)%Z
  /\ (ip h = "*" \/ is_dotted_quad (ip h) = true)
  /\ (latency h = (-1)%Q \/ (0 <= latency h)%Q).

(* ================================================================== *)
(** ** Concrete platforms, used to run the engine *)

Module Sample.

(** A clock that advances by one millisecond at every reading. *)
Definition clock (n : nat) : Q := inject_Z (Z.of_nat n) / 1000.

Definition w0 : World := mkWorld "eth0" [] [] 0.

(** The host 10.0.0.9 answers from the third hop on. *)
Definition answers_at_3 (iface : string) (p : Probe) (timeout : Q)
  : Res (option Reply) :=
  if (ttl p <? 3)%Z then Ok None
  else Ok (Some (mkReply (Some "10.0.0.9") "00:11:22:33:44:55")).

Definition silent (iface : string) (p : Probe) (timeout : Q)
  : Res (option Reply) := Ok None.

Definition forbidden (iface : string) (p : Probe) (timeout : Q)
  : Res (option Reply) := Raise PermissionError.

(** Nothing answers the first probe, and the second may not be sent. *)
Definition forbidden_at_2 (iface : string) (p : Probe) (timeout : Q)
  : Res (option Reply) :=
  if (ttl p =? 2)%Z then Raise PermissionError else Ok None.

Definition no_tool (argv : list string) : Proc := SpawnFails FileNotFoundError.

(** A tool that ends after one second with the given status and output. *)
Definition tool (status : Z) (text : string) (argv : list string) : Proc :=
  Runs 1 status text.

(** A tool that never ends by itself. *)
Definition slow_tool (argv : list string) : Proc := Runs 3600 0 "".

(** Linux: no [tracert] program, one interface, the host answers. *)
Definition linux : Env :=
  mkEnv "linux" no_tool (Ok ["lo"]) answers_at_3 clock.

(** Windows without [tracert] in the path, the host answers. *)
Definition windows_no_tool : Env :=
  mkEnv "win32" no_tool (Ok ["Ethernet"]) answers_at_3 clock.

(** A clock that advances by one second at every reading. *)
Definition slow_clock (n : nat) : Q := inject_Z (Z.of_nat n).

(** The same, with the slow clock. *)
Definition windows_slow_clock : Env :=
  mkEnv "win32" no_tool (Ok ["Ethernet"]) answers_at_3 slow_clock.

(** Windows without [tracert] and without the right to send raw packets. *)
Definition windows_unprivileged : Env :=
  mkEnv "win32" no_tool (Ok ["Ethernet"]) forbidden clock.

(** Windows without [tracert], where the second probe is refused. *)
Definition windows_refused_at_2 : Env :=
  mkEnv "win32" no_tool (Ok ["Ethernet"]) forbidden_at_2 clock.

(** Windows where [tracert] prints [text] and exits with [status]. *)
Definition windows_tool (status : Z) (text : string) : Env :=
  mkEnv "win32" (tool status text) (Ok ["Ethernet"]) silent clock.

Definition windows_slow_tool : Env :=
  mkEnv "win32" slow_tool (Ok ["Ethernet"]) silent clock.

(** A platform whose interface list is empty and where nothing answers. *)
Definition no_interface : Env :=
  mkEnv "linux" no_tool (Ok []) silent clock.

(** A tracer that probes by itself, and what it finds on [linux]. *)
Definition prober : MTRTracer := mkTracer "10.0.0.9" 30 "scapy".

Definition three_hops : list Hop :=
  [mkHop 1 "*" (-1); mkHop 2 "*" (-1); mkHop 3 "10.0.0.9" 1].

Definition w_probed : World :=
  mkWorld "lo" []
          [mkProbe "10.0.0.9" 1; mkProbe "10.0.0.9" 2; mkProbe "10.0.0.9" 3] 6.

Definition line_1 : string := "1  3 ms  2 ms  4 ms  192.168.1.1".

(** The double nearest to 16/3, the mean of 5, 4 and 7. *)
Definition lat_2 : Q := 6004799503160661 # 1125899906842624.

(** A line whose round-trip times have a mean that is no double. *)
Definition line_thirds : string := "1  1 ms  1 ms  2 ms  10.0.0.1".

(** The double nearest to 4/3. *)
Definition lat_thirds : Q := 6004799503160661 # 4503599627370496.

(** [n] times the digit nine. *)
Fixpoint nines (n : nat) : string :=
  match n with
  | O => EmptyString
  | S n' => String "9" (nines n')
  end.

(** A line whose round-trip time has 400 digits. *)
Definition line_huge : string := "1  " ++ nines 400 ++ " ms  10.0.0.1".

(** A line whose hop number is the superscript digit two. *)
Definition line_superscript : string :=
  String "178"%char "     5 ms     4 ms     7 ms  10.0.0.2".

(** A font 17 pixels high whose labels are 120 pixels wide. *)
Definition font : SkyJet.Font := SkyJet.mkFont 17 (fun _ => (120, 17)%Z).

Definition tracert_output : string :=
  "
Tracing route to 10.0.0.2 over a maximum of 30 hops

  1    <1 ms    <1 ms    <1 ms  10.0.0.1
  2     5 ms     4 ms     7 ms  10.0.0.2
  3     6 ms     6 ms     6 ms  10.0.0.3

Trace complete.
".

End Sample.

(* ================================================================== *)
(** ** Facts about strings *)

Module StrFacts.

Lemma str_app_assoc (a b c : string) : ((a ++ b) ++ c = a ++ b ++ c)%string.
Proof. induction a as [|x a IH]; simpl; [reflexivity | now rewrite IH]. Qed.

Lemma str_app_nil_r (a : string) : (a ++ "")%string = a.
Proof. induction a as [|x a IH]; simpl; [reflexivity | now rewrite IH]. Qed.

Lemma str_length_app (a b : string) :
  String.length (a ++ b) = String.length a + String.length b.
Proof. induction a as [|x a IH]; simpl; [reflexivity | now rewrite IH]. Qed.

Lemma substring_prefix (p rest : string) :
  substring 0 (String.length p) (p ++ rest) = p.
Proof.
  induction p as [|x p IH]; simpl.
  - destruct rest; reflexivity.
  - now rewrite IH.
Qed.

Lemma consumed_app (p rest : string) : Re.consumed (p ++ rest) rest = p.
Proof.
  unfold Re.consumed. rewrite str_length_app.
  replace (String.length p + String.length rest - String.length rest)
    with (String.length p) by lia.
  apply substring_prefix.
Qed.

Lemma forallb_str_app (f : ascii -> bool) (a b : string) :
  Py.forallb_str f (a ++ b) = Py.forallb_str f a && Py.forallb_str f b.
Proof.
  induction a as [|x a IH]; simpl; [reflexivity|].
  rewrite IH. now rewrite andb_assoc.
Qed.

Lemma is_empty_true (s : string) : Py.is_empty s = true <-> s = "".
Proof. destruct s; simpl; split; congruence. Qed.

End StrFacts.

(* ================================================================== *)
(** ** The rounding of quotients *)

Module FloatFacts.
Import Float.

Local Open Scope Q_scope.

Lemma pow2_pos k : 0 < 2 ^ k.
Proof. apply Qpower_0_lt. reflexivity. Qed.

Lemma pow2_add a b : 2 ^ (a + b) == 2 ^ a * 2 ^ b.
Proof. apply Qpower_plus. discriminate. Qed.

Lemma pow2_le a b : (a <= b)%Z -> 2 ^ a <= 2 ^ b.
Proof. intros H. apply Qpower_le_compat_l; [exact H | discriminate]. Qed.

Lemma pow2_lt a b : (a < b)%Z -> 2 ^ a < 2 ^ b.
Proof. intros H. apply Qpower_lt_compat_l; [exact H | reflexivity]. Qed.

Lemma pow2_lt_inv a b : 2 ^ a < 2 ^ b -> (a < b)%Z.
Proof. intros H. apply (Qpower_lt_compat_l_inv 2); [exact H | reflexivity]. Qed.

Lemma pow2_Z k : (0 <= k)%Z -> inject_Z (2 ^ k) == 2 ^ k.
Proof. intros H. now rewrite Zpower_Qpower. Qed.

Lemma pow2_succ a : 2 ^ (a + 1) == 2 * 2 ^ a.
Proof. rewrite pow2_add. change (2 ^ 1) with 2. ring. Qed.

(** The integer chosen is at most one half away. *)
Lemma round_even_near q : Qabs (inject_Z (round_even q) - q) <= 1 # 2.
Proof.
  pose proof (Qfloor_le q) as Hlo. pose proof (Qlt_floor q) as Hhi.
  rewrite inject_Z_plus in Hhi. change (inject_Z 1) with 1 in Hhi.
  unfold round_even.
  destruct (Qcompare (q - inject_Z (Qfloor q)) (1 # 2)) eqn:Hc.
  - apply Qeq_alt in Hc.
    destruct (Z.even (Qfloor q)); apply Qabs_Qle_condition;
      rewrite ?inject_Z_plus; change (inject_Z 1) with 1; split; lra.
  - apply Qlt_alt in Hc. apply Qabs_Qle_condition. split; lra.
  - apply Qgt_alt in Hc. apply Qabs_Qle_condition.
    rewrite inject_Z_plus. change (inject_Z 1) with 1. split; lra.
Qed.

(** No integer is nearer than the one chosen. *)
Lemma round_even_nearest q n :
  Qabs (inject_Z (round_even q) - q) <= Qabs (inject_Z n - q).
Proof.
  pose proof (round_even_near q) as Hm.
  apply Qabs_Qle_condition in Hm.
  destruct (Z.eq_dec n (round_even q)) as [->|Hne]; [apply Qle_refl|].
  apply Qle_trans with (1 # 2); [now apply Qabs_Qle_condition|].
  assert (Hcases : (n <= round_even q + -1)%Z \/ (round_even q + 1 <= n)%Z)
    by lia.
  destruct Hcases as [H|H]; rewrite Zle_Qle, inject_Z_plus in H;
    [change (inject_Z (-1)) with (-1) in H | change (inject_Z 1) with 1 in H].
  - rewrite Qabs_neg; lra.
  - rewrite Qabs_pos; lra.
Qed.

(** No multiple of [u] is nearer to [q] than the one chosen. *)
Lemma nearest_multiple u q n :
  0 < u ->
  Qabs (inject_Z (round_even (q / u)) * u - q)
  <= Qabs (inject_Z n * u - q).
Proof.
  intros Hu.
  assert (Heq : forall k, inject_Z k * u - q == (inject_Z k - q / u) * u)
    by (intros k; field; lra).
  rewrite (Heq (round_even (q / u))), (Heq n), !Qabs_Qmult.
  rewrite (Qabs_pos u) by lra.
  apply Qmult_le_compat_r; [apply round_even_nearest | lra].
Qed.

Lemma round_even_nonneg q : 0 <= q -> (0 <= round_even q)%Z.
Proof.
  intros Hq. pose proof (round_even_near q) as Hm.
  apply Qabs_Qle_condition in Hm.
  destruct (Z.le_gt_cases 0 (round_even q)) as [H|H]; [exact H|].
  assert (H1 : (round_even q <= -1)%Z) by lia.
  rewrite Zle_Qle in H1. change (inject_Z (-1)) with (-1) in H1. lra.
Qed.

(** [ilog2] is the exponent. *)
Lemma ilog2_spec q : 0 < q -> 2 ^ ilog2 q <= q /\ q < 2 ^ (ilog2 q + 1).
Proof.
  intros Hq. destruct q as [n d]. unfold ilog2. cbn [Qnum Qden].
  assert (Hn : (0 < n)%Z) by (unfold Qlt in Hq; simpl in Hq; lia).
  set (A := Z.log2 n). set (B := Z.log2 (Z.pos d)).
  assert (HA : (0 <= A)%Z) by apply Z.log2_nonneg.
  assert (HB : (0 <= B)%Z) by apply Z.log2_nonneg.
  destruct (Z.log2_spec n Hn) as [HA1 HA2]. fold A in HA1, HA2.
  destruct (Z.log2_spec (Z.pos d) ltac:(lia)) as [HB1 HB2].
  fold B in HB1, HB2.
  rewrite Zle_Qle, pow2_Z in HA1, HB1 by lia.
  rewrite Zlt_Qlt, pow2_Z in HA2, HB2 by lia.
  replace (Z.succ A) with (A + 1)%Z in HA2 by lia.
  replace (Z.succ B) with (B + 1)%Z in HB2 by lia.
  rewrite pow2_succ in HA2, HB2.
  pose proof (pow2_pos A) as HpA. pose proof (pow2_pos B) as HpB.
  pose proof (pow2_pos (A - B)) as Hpu.
  assert (Hu : 2 ^ (A - B) * 2 ^ B == 2 ^ A).
  { rewrite <- pow2_add. now replace (A - B + B)%Z with A by lia. }
  assert (Hqd : (n # d) * inject_Z (Z.pos d) == inject_Z n).
  { rewrite (Qmake_Qdiv n d). field. unfold Qeq. simpl. lia. }
  set (x := 2 ^ A) in *. set (y := 2 ^ B) in *. set (u := 2 ^ (A - B)) in *.
  set (N := inject_Z n) in *. set (D := inject_Z (Z.pos d)) in *.
  set (qq := n # d) in *.
  assert (Hupper : qq < 2 * u).
  { destruct (Qlt_le_dec qq (2 * u)) as [H|H]; [exact H|]. exfalso.
    assert (2 * u * D <= qq * D) by (apply Qmult_le_compat_r; lra).
    assert (2 * u * y <= 2 * u * D) by (apply Qmult_le_l; lra).
    lra. }
  assert (Hlower : u * (1 # 2) <= qq).
  { destruct (Qlt_le_dec qq (u * (1 # 2))) as [H|H]; [|exact H]. exfalso.
    assert (qq * D <= u * (1 # 2) * D) by (apply Qmult_le_compat_r; lra).
    assert (u * (1 # 2) * D < u * (1 # 2) * (2 * y)).
    { apply Qmult_lt_l; [|lra].
      apply Qmult_lt_0_compat; [lra | reflexivity]. }
    lra. }
  destruct (Qle_bool u qq) eqn:Hb.
  - apply Qle_bool_iff in Hb. split; [exact Hb|].
    rewrite pow2_succ. exact Hupper.
  - assert (Hlt : qq < u).
    { apply Qnot_le_lt. intros H. apply Qle_bool_iff in H. congruence. }
    replace (A - B - 1 + 1)%Z with (A - B)%Z by lia. split; [|exact Hlt].
    assert (Hhalf : 2 ^ (A - B - 1) == u * (1 # 2)).
    { unfold u. replace (A - B - 1)%Z with (A - B + -1)%Z by lia.
      rewrite pow2_add. reflexivity. }
    rewrite Hhalf. exact Hlower.
Qed.

(** A double with an exponent of at least [p] is a multiple of [2^p]. *)
Lemma double_multiple n k p :
  (p <= k)%Z -> inject_Z n * 2 ^ k == inject_Z (n * 2 ^ (k - p)) * 2 ^ p.
Proof.
  intros H. rewrite inject_Z_mult, pow2_Z by lia.
  rewrite <- Qmult_assoc, <- pow2_add.
  now replace (k - p + p)%Z with k by lia.
Qed.

(** An integer within one half of a rational that is at least an integer is
    at least that integer, and likewise from above. *)
Lemma near_ge (m c : Z) (M : Q) :
  inject_Z c <= M -> - (1 # 2) <= inject_Z m - M -> (c <= m)%Z.
Proof.
  intros Hc Hm. destruct (Z.le_gt_cases c m) as [H|H]; [exact H|].
  assert (H1 : (m + 1 <= c)%Z) by lia.
  rewrite Zle_Qle, inject_Z_plus in H1. change (inject_Z 1) with 1 in H1.
  lra.
Qed.

Lemma near_le (m c : Z) (M : Q) :
  M <= inject_Z c -> inject_Z m - M <= 1 # 2 -> (m <= c)%Z.
Proof.
  intros Hc Hm. destruct (Z.le_gt_cases m c) as [H|H]; [exact H|].
  assert (H1 : (c + 1 <= m)%Z) by lia.
  rewrite Zle_Qle, inject_Z_plus in H1. change (inject_Z 1) with 1 in H1.
  lra.
Qed.

Lemma near_lt_le (m c : Z) (M : Q) :
  M < inject_Z c -> inject_Z m - M <= 1 # 2 -> (m <= c)%Z.
Proof. intros Hc. apply near_le. lra. Qed.

Lemma is_double_eq x y : x == y -> is_double x -> is_double y.
Proof.
  intros Heq (m & k & Hm & Hk & Hx). exists m, k. rewrite <- Heq. auto.
Qed.

(** The mantissa of a rational [q], positive: [q / quantum q] lies from
    [2^52] to [2^53] for a normal exponent and below [2^52] otherwise. *)
Lemma quantum_normal q :
  0 < q -> (-1022 <= ilog2 q)%Z ->
  quantum q == 2 ^ (ilog2 q - 52)
  /\ inject_Z (2 ^ 52) * quantum q == 2 ^ ilog2 q
  /\ inject_Z (2 ^ 52) <= q / quantum q < inject_Z (2 ^ 53).
Proof.
  intros Hq He. destruct (ilog2_spec q Hq) as [Hlo Hhi].
  unfold quantum. rewrite Z.max_l by lia.
  set (p := (ilog2 q - 52)%Z). pose proof (pow2_pos p) as Hu.
  assert (H52 : inject_Z (2 ^ 52) * 2 ^ p == 2 ^ ilog2 q).
  { rewrite pow2_Z by lia. rewrite <- pow2_add.
    now replace (52 + p)%Z with (ilog2 q) by (unfold p; lia). }
  assert (H53 : inject_Z (2 ^ 53) * 2 ^ p == 2 ^ (ilog2 q + 1)).
  { rewrite pow2_Z by lia. rewrite <- pow2_add.
    now replace (53 + p)%Z with (ilog2 q + 1)%Z by (unfold p; lia). }
  split; [reflexivity|]. split; [exact H52|]. split.
  - apply Qle_shift_div_l; [exact Hu|]. rewrite H52. exact Hlo.
  - apply Qlt_shift_div_r; [exact Hu|]. rewrite H53. exact Hhi.
Qed.

Lemma quantum_subnormal q :
  0 < q -> (ilog2 q < -1022)%Z ->
  quantum q == 2 ^ (-1074) /\ q / quantum q < inject_Z (2 ^ 52).
Proof.
  intros Hq He. destruct (ilog2_spec q Hq) as [_ Hhi].
  unfold quantum. rewrite Z.max_r by lia.
  change (-1022 - 52)%Z with (-1074)%Z.
  pose proof (pow2_pos (-1074)) as Hu.
  split; [reflexivity|].
  apply Qlt_shift_div_r; [exact Hu|].
  rewrite pow2_Z by lia. rewrite <- pow2_add.
  change (52 + -1074)%Z with (-1022)%Z.
  apply Qlt_le_trans with (2 ^ (ilog2 q + 1)); [exact Hhi|].
  apply pow2_le. lia.
Qed.

(** What [nearest] returns is a double, not negative, and no double is
    nearer to [q]. *)
Lemma nearest_correct q r :
  0 <= q -> nearest q = Some r ->
  0 <= r /\ is_double r /\
  forall y, is_double y -> Qabs (r - q) <= Qabs (y - q).
Proof.
  intros Hq0 H. unfold nearest in H.
  destruct (Qle_bool q 0) eqn:Hz.
  { apply Qle_bool_iff in Hz. inversion H; subst r.
    split; [apply Qle_refl|]. split.
    - exists 0%Z, 0%Z. split; [reflexivity|]. split; [lia|]. reflexivity.
    - intros y _. assert (Hq : q == 0) by lra. rewrite Hq.
      setoid_replace (0 - 0) with 0 by ring. apply Qabs_nonneg. }
  assert (Hq : 0 < q).
  { apply Qnot_le_lt. intros Hle. apply Qle_bool_iff in Hle. congruence. }
  remember (quantum q) as u eqn:Hu_def.
  remember (round_even (q / u)) as m eqn:Hm_def.
  destruct (Qle_bool (2 ^ 1024) (inject_Z m * u)) eqn:Ho; [discriminate|].
  assert (Hno : inject_Z m * u < 2 ^ 1024).
  { apply Qnot_le_lt. intros Hle. apply Qle_bool_iff in Hle. congruence. }
  assert (Hred : Qred (inject_Z m * u) == inject_Z m * u)
    by apply Qred_correct.
  remember (Qred (inject_Z m * u)) as r0 eqn:Hr_def. clear Hr_def.
  injection H as Hr. subst r0.
  assert (Hu : 0 < u) by (subst u; apply pow2_pos).
  pose proof (round_even_near (q / u)) as Hm. rewrite <- Hm_def in Hm.
  apply Qabs_Qle_condition in Hm. destruct Hm as [Hm1 Hm2].
  assert (Hm0 : (0 <= m)%Z).
  { subst m. apply round_even_nonneg.
    apply Qle_shift_div_l; [exact Hu|]. lra. }
  assert (Hr0 : 0 <= inject_Z m * u).
  { apply Qmult_le_0_compat; [|lra]. rewrite Zle_Qle in Hm0. exact Hm0. }
  assert (Hmult : forall n, Qabs (r - q) <= Qabs (inject_Z n * u - q)).
  { intros n. rewrite Hred. subst m. now apply nearest_multiple. }
  split; [lra|].
  destruct (Z.le_gt_cases (-1022) (ilog2 q)) as [He|He].
  - destruct (quantum_normal q Hq He) as (Hup & H52 & HM1 & HM2).
    rewrite <- Hu_def in Hup, H52, HM1, HM2.
    destruct (ilog2_spec q Hq) as [Hlo _].
    assert (Hmlo : (2 ^ 52 <= m)%Z) by (apply (near_ge m _ (q / u)); lra).
    assert (Hmhi : (m <= 2 ^ 53)%Z) by (apply (near_lt_le m _ (q / u)); lra).
    assert (Hge : 2 ^ ilog2 q <= inject_Z m * u).
    { rewrite <- H52. apply Qmult_le_compat_r; [|lra].
      now rewrite <- Zle_Qle. }
    assert (He2 : (ilog2 q < 1024)%Z).
    { apply pow2_lt_inv. lra. }
    split.
    + apply (is_double_eq (inject_Z m * u)); [now symmetry|].
      destruct (Z.eq_dec m (2 ^ 53)) as [Hmax|Hmax].
      * assert (Hp : (ilog2 q - 52 + 53 < 1024)%Z).
        { apply pow2_lt_inv. rewrite pow2_add, <- Hup, Qmult_comm.
          rewrite <- pow2_Z, <- Hmax by lia. exact Hno. }
        exists (2 ^ 52)%Z, (ilog2 q - 52 + 1)%Z.
        split; [lia|]. split; [lia|].
        rewrite Hmax, Hup, pow2_succ.
        change (inject_Z (2 ^ 53)) with (2 * inject_Z (2 ^ 52)). ring.
      * exists m, (ilog2 q - 52)%Z. split; [lia|]. split; [lia|].
        now rewrite Hup.
    + intros y (n & k & Hn & Hk & Hy). rewrite Hy.
      destruct (Z.le_gt_cases (ilog2 q - 52) k) as [Hpk|Hpk].
      * rewrite (double_multiple n k (ilog2 q - 52) Hpk), <- Hup.
        apply Hmult.
      * assert (Hylt : inject_Z n * 2 ^ k < 2 ^ ilog2 q).
        { apply Qle_lt_trans with (inject_Z (Z.abs n) * 2 ^ k).
          - apply Qmult_le_compat_r; [|pose proof (pow2_pos k); lra].
            rewrite <- Zle_Qle. lia.
          - apply Qlt_le_trans with (inject_Z (2 ^ 53) * 2 ^ k).
            + apply Qmult_lt_compat_r; [apply pow2_pos|].
              now rewrite <- Zlt_Qlt.
            + rewrite pow2_Z by lia. rewrite <- pow2_add.
              apply pow2_le. lia. }
        apply Qle_trans with (Qabs (inject_Z (2 ^ 52) * u - q));
          [apply Hmult|].
        rewrite H52. rewrite Qabs_neg by lra. rewrite Qabs_neg by lra. lra.
  - destruct (quantum_subnormal q Hq He) as (Hup & HM).
    rewrite <- Hu_def in Hup, HM.
    assert (Hmhi : (m <= 2 ^ 52)%Z) by (apply (near_lt_le m _ (q / u)); lra).
    split.
    + apply (is_double_eq (inject_Z m * u)); [now symmetry|].
      exists m, (-1074)%Z. split; [lia|]. split; [lia|]. now rewrite Hup.
    + intros y (n & k & Hn & Hk & Hy). rewrite Hy.
      rewrite (double_multiple n k (-1074)) by lia. rewrite <- Hup.
      apply Hmult.
Qed.

(** A rational that is a double is its own nearest double. *)
Lemma nearest_exact q r :
  0 <= q -> nearest q = Some r -> is_double q -> r == q.
Proof.
  intros Hq H Hd. destruct (nearest_correct q r Hq H) as (_ & _ & Hn).
  specialize (Hn q Hd). setoid_replace (q - q) with 0 in Hn by ring.
  change (Qabs 0) with 0 in Hn.
  pose proof (Qabs_nonneg (r - q)) as H0.
  assert (Hz : Qabs (r - q) == 0) by lra.
  destruct (Qlt_le_dec (r - q) 0) as [Hneg|Hpos].
  - rewrite Qabs_neg in Hz by lra. lra.
  - rewrite Qabs_pos in Hz by lra. lra.
Qed.

Lemma is_double_Z n : (Z.abs n < 2 ^ 53)%Z -> is_double (inject_Z n).
Proof.
  intros H. exists n, 0%Z. split; [exact H|]. split; [lia|].
  change (2 ^ 0) with 1. ring.
Qed.

(** One half below [2^53] and above, the integer chosen is [2^53] or
    more. *)
Lemma round_even_top M :
  inject_Z (2 ^ 53) - (1 # 2) <= M -> (2 ^ 53 <= round_even M)%Z.
Proof.
  intros HM. pose proof (Qfloor_le M) as Hlo. pose proof (Qlt_floor M) as Hhi.
  rewrite inject_Z_plus in Hhi. change (inject_Z 1) with 1 in Hhi.
  assert (Hf : (2 ^ 53 - 1 <= Qfloor M)%Z).
  { destruct (Z.le_gt_cases (2 ^ 53 - 1) (Qfloor M)) as [H|H]; [exact H|].
    assert (H1 : (Qfloor M + 2 <= 2 ^ 53)%Z) by lia.
    rewrite Zle_Qle, inject_Z_plus in H1. change (inject_Z 2) with 2 in H1.
    lra. }
  unfold round_even.
  destruct (Qcompare (M - inject_Z (Qfloor M)) (1 # 2)) eqn:Hc.
  - destruct (Z.eq_dec (Qfloor M) (2 ^ 53 - 1)) as [->|Hne].
    + reflexivity.
    + destruct (Z.even (Qfloor M)); lia.
  - apply Qlt_alt in Hc.
    destruct (Z.le_gt_cases (2 ^ 53) (Qfloor M)) as [H|H]; [exact H|].
    assert (H1 : (Qfloor M + 1 <= 2 ^ 53)%Z) by lia.
    rewrite Zle_Qle, inject_Z_plus in H1. change (inject_Z 1) with 1 in H1.
    lra.
  - lia.
Qed.

(** The quotients that are too large for a double: from half a step below
    [2^1024] on. *)
Lemma nearest_overflow q :
  0 <= q -> (nearest q = None <-> 2 ^ 1024 - 2 ^ 970 <= q).
Proof.
  intros Hq0.
  assert (Hthr : 2 ^ 1024 - 2 ^ 970
                 == (inject_Z (2 ^ 53) - (1 # 2)) * 2 ^ 971).
  { rewrite (pow2_Z 53) by lia.
    setoid_replace ((2 ^ 53 - (1 # 2)) * 2 ^ 971)
      with (2 ^ 53 * 2 ^ 971 - 2 ^ (-1) * 2 ^ 971)
      by (change (2 ^ (-1)) with (1 # 2); ring).
    now rewrite <- !pow2_add. }
  assert (Hpos : 2 ^ 1023 <= 2 ^ 1024 - 2 ^ 970).
  { setoid_replace (2 ^ 1024) with (2 ^ 1023 + 2 ^ 1023)
      by (change 1024%Z with (1023 + 1)%Z; rewrite pow2_succ; ring).
    pose proof (pow2_le 970 1023 ltac:(lia)). lra. }
  unfold nearest.
  destruct (Qle_bool q 0) eqn:Hz.
  { apply Qle_bool_iff in Hz. split; [discriminate|].
    intros H. pose proof (pow2_pos 1023). lra. }
  assert (Hq : 0 < q).
  { apply Qnot_le_lt. intros Hle. apply Qle_bool_iff in Hle. congruence. }
  remember (quantum q) as u eqn:Hu_def.
  remember (round_even (q / u)) as m eqn:Hm_def.
  assert (Hu : 0 < u) by (subst u; apply pow2_pos).
  pose proof (round_even_near (q / u)) as Hm. rewrite <- Hm_def in Hm.
  apply Qabs_Qle_condition in Hm. destruct Hm as [Hm1 Hm2].
  destruct (ilog2_spec q Hq) as [Hlo Hhi].
  assert (HMu : q / u * u == q) by (field; lra).
  destruct (Qle_bool (2 ^ 1024) (inject_Z m * u)) eqn:Ho.
  - apply Qle_bool_iff in Ho. split; [intros _|reflexivity].
    destruct (Z.le_gt_cases (-1022) (ilog2 q)) as [He|He].
    + destruct (quantum_normal q Hq He) as (Hup & H52 & HM1 & HM2).
      rewrite <- Hu_def in Hup, H52, HM1, HM2.
      assert (Hmhi : (m <= 2 ^ 53)%Z)
        by (apply (near_lt_le m _ (q / u)); lra).
      destruct (Z.le_gt_cases 1024 (ilog2 q)) as [Hbig|Hsmall].
      * pose proof (pow2_le 1024 (ilog2 q) Hbig).
        pose proof (pow2_pos 970). lra.
      * assert (He1 : (1024 < ilog2 q + 1 + 1)%Z).
        { apply pow2_lt_inv.
          apply Qle_lt_trans with (inject_Z m * u); [exact Ho|].
          apply Qle_lt_trans with (inject_Z (2 ^ 53) * u).
          - apply Qmult_le_compat_r; [|lra]. now rewrite <- Zle_Qle.
          - rewrite Hup, pow2_Z by lia. rewrite <- pow2_add.
            apply pow2_lt. lia. }
        assert (He3 : ilog2 q = 1023%Z) by lia.
        rewrite He3 in Hup. change (1023 - 52)%Z with 971%Z in Hup.
        assert (Hm53 : (2 ^ 53 <= m)%Z).
        { destruct (Z.le_gt_cases (2 ^ 53) m) as [H|H]; [exact H|].
          exfalso. assert (H1 : (m + 1 <= 2 ^ 53)%Z) by lia.
          rewrite Zle_Qle, inject_Z_plus in H1.
          change (inject_Z 1) with 1 in H1.
          assert (inject_Z m * u < inject_Z (2 ^ 53) * u)
            by (apply Qmult_lt_compat_r; lra).
          assert (inject_Z (2 ^ 53) * u == 2 ^ 1024).
          { rewrite Hup, pow2_Z by lia. now rewrite <- pow2_add. }
          lra. }
        rewrite Zle_Qle in Hm53.
        rewrite Hthr, <- Hup, <- HMu.
        apply Qmult_le_compat_r; lra.
    + destruct (quantum_subnormal q Hq He) as (Hup & HM).
      rewrite <- Hu_def in Hup, HM. exfalso.
      assert (Hmhi : (m <= 2 ^ 52)%Z)
        by (apply (near_lt_le m _ (q / u)); lra).
      assert (inject_Z m * u <= inject_Z (2 ^ 52) * u).
      { apply Qmult_le_compat_r; [|lra]. now rewrite <- Zle_Qle. }
      assert (inject_Z (2 ^ 52) * u == 2 ^ (-1022)).
      { rewrite Hup, pow2_Z by lia. now rewrite <- pow2_add. }
      pose proof (pow2_lt (-1022) 1024 ltac:(lia)). lra.
  - assert (Hno : inject_Z m * u < 2 ^ 1024).
    { apply Qnot_le_lt. intros Hle. apply Qle_bool_iff in Hle. congruence. }
    split; [discriminate|]. intros Hbig. exfalso.
    assert (He : (1023 <= ilog2 q)%Z).
    { assert (H : (1023 < ilog2 q + 1)%Z) by (apply pow2_lt_inv; lra). lia. }
    destruct (quantum_normal q Hq ltac:(lia)) as (Hup & H52 & HM1 & HM2).
    rewrite <- Hu_def in Hup, H52, HM1, HM2.
    assert (Hmlo : (2 ^ 52 <= m)%Z) by (apply (near_ge m _ (q / u)); lra).
    assert (Hge : 2 ^ ilog2 q <= inject_Z m * u).
    { rewrite <- H52. apply Qmult_le_compat_r; [|lra].
      now rewrite <- Zle_Qle. }
    assert (He3 : ilog2 q = 1023%Z).
    { assert (H : (ilog2 q < 1024)%Z) by (apply pow2_lt_inv; lra). lia. }
    rewrite He3 in Hup. change (1023 - 52)%Z with 971%Z in Hup.
    assert (Hm53 : (2 ^ 53 <= m)%Z).
    { subst m. apply round_even_top.
      apply Qle_shift_div_l; [exact Hu|]. rewrite Hup, <- Hthr. exact Hbig. }
    rewrite Zle_Qle in Hm53.
    assert (inject_Z (2 ^ 53) * u <= inject_Z m * u)
      by (apply Qmult_le_compat_r; lra).
    assert (inject_Z (2 ^ 53) * u == 2 ^ 1024).
    { rewrite Hup, pow2_Z by lia. now rewrite <- pow2_add. }
    lra.
Qed.

(** The quotient of an integer that is not negative by a positive one. *)
Lemma true_div_pos a b :
  (0 <= a)%Z -> (0 < b)%Z ->
  true_div a b = match nearest (inject_Z a / inject_Z b) with
                 | Some r => Ok r
                 | None => Raise OverflowError
                 end.
Proof.
  intros Ha Hb. unfold true_div.
  replace (b =? 0)%Z with false by (symmetry; apply Z.eqb_neq; lia).
  assert (Hq : 0 <= inject_Z a / inject_Z b).
  { apply Qle_shift_div_l.
    - rewrite Zlt_Qlt in Hb. exact Hb.
    - rewrite Qmult_0_l. rewrite Zle_Qle in Ha. exact Ha. }
  apply Qle_bool_iff in Hq. now rewrite Hq.
Qed.

End FloatFacts.

(* ================================================================== *)
(** ** The matcher against the texts a pattern denotes *)

Module ReFacts.
Import Re StrFacts.

Section Soundness.
Context {A : Type}.

Lemma star_atom_sound a s (k : string -> option A) x :
  star_atom a s k = Some x ->
  exists p rest, s = (p ++ rest)%string
                 /\ Py.forallb_str (atom_ok a) p = true
                 /\ k rest = Some x.
Proof.
  induction s as [|c s IH]; simpl; intros H.
  - exists "", "". auto.
  - destruct (atom_ok a c) eqn:Hc.
    + destruct (star_atom a s k) as [y|] eqn:Hs.
      * inversion H; subst y.
        destruct (IH eq_refl) as (p & rest & -> & Hp & Hk).
        exists (String c p), rest. simpl. rewrite Hc, Hp. auto.
      * exists "", (String c s). auto.
    + exists "", (String c s). auto.
Qed.

Lemma star_atom_fallback a s (k : string -> option A) :
  k s <> None -> star_atom a s k <> None.
Proof.
  destruct s as [|c s]; simpl; [auto|]. intros H.
  destruct (atom_ok a c); [|assumption].
  destruct (star_atom a s k); [discriminate | assumption].
Qed.

Lemma star_atom_complete a p rest (k : string -> option A) :
  Py.forallb_str (atom_ok a) p = true ->
  k rest <> None -> star_atom a (p ++ rest) k <> None.
Proof.
  induction p as [|c p IH]; simpl; intros Hp Hk.
  - now apply star_atom_fallback.
  - apply andb_prop in Hp as [Hc Hp]. rewrite Hc.
    specialize (IH Hp Hk).
    destruct (star_atom a (p ++ rest) k); [discriminate | contradiction].
Qed.

Lemma rmatch_sound r : forall s g (k : string -> option string -> option A) x,
  rmatch r s g k = Some x ->
  exists p rest g', s = (p ++ rest)%string
                    /\ matches r p g g' /\ k rest g' = Some x.
Proof.
  induction r as [a|a|a|a|r1 IH1 r2 IH2|r1 IH1]; simpl; intros s g k x H.
  - destruct s as [|c s]; [discriminate|].
    destruct (atom_ok a c) eqn:Hc; [|discriminate].
    exists (String c ""), s, g. repeat split; auto. now constructor.
  - destruct s as [|c s].
    + exists "", "", g. repeat split; auto. constructor.
    + destruct (atom_ok a c) eqn:Hc.
      * destruct (k s g) as [y|] eqn:Hk.
        -- inversion H; subst y.
           exists (String c ""), s, g. repeat split; auto. now constructor.
        -- exists "", (String c s), g. repeat split; auto. constructor.
      * exists "", (String c s), g. repeat split; auto. constructor.
  - apply star_atom_sound in H as (p & rest & -> & Hp & Hk).
    exists p, rest, g. repeat split; auto. now constructor.
  - destruct s as [|c s]; [discriminate|].
    destruct (atom_ok a c) eqn:Hc; [|discriminate].
    apply star_atom_sound in H as (p & rest & -> & Hp & Hk).
    exists (String c p), rest, g. repeat split; auto.
    constructor; [discriminate|]. simpl. now rewrite Hc, Hp.
  - apply IH1 in H as (p1 & rest1 & g1 & -> & M1 & H).
    apply IH2 in H as (p2 & rest2 & g2 & -> & M2 & H).
    exists (p1 ++ p2)%string, rest2, g2. repeat split; auto.
    + now rewrite str_app_assoc.
    + econstructor; eassumption.
  - apply IH1 in H as (p & rest & g1 & -> & M1 & H).
    rewrite consumed_app in H.
    exists p, rest, (Some p). repeat split; auto.
    econstructor; eassumption.
Qed.

Lemma rmatch_complete r p g g' :
  matches r p g g' ->
  forall rest (k : string -> option string -> option A),
    k rest g' <> None -> rmatch r (p ++ rest) g k <> None.
Proof.
  induction 1 as [a c g Hc|a g|a c g Hc|a p g Hp|a p g Hne Hp
                 |r1 r2 p1 p2 g g1 g2 M1 IH1 M2 IH2|r p g g1 M IH];
    intros rest k Hk; simpl.
  - now rewrite Hc.
  - destruct rest as [|c rest]; [assumption|].
    destruct (atom_ok a c); [|assumption].
    destruct (k rest g); [discriminate | assumption].
  - rewrite Hc. destruct (k rest g); [discriminate | contradiction].
  - now apply star_atom_complete.
  - destruct p as [|c p]; [contradiction|]. simpl in *.
    apply andb_prop in Hp as [Hc Hp]. rewrite Hc.
    now apply star_atom_complete.
  - rewrite str_app_assoc. apply IH1. now apply IH2.
  - apply IH. now rewrite consumed_app.
Qed.

End Soundness.

Lemma match_at_sound r s g rest :
  match_at r s = Some (g, rest) ->
  exists p go, s = (p ++ rest)%string /\ matches r p None go
               /\ g = group_text go.
Proof.
  unfold match_at. intros H.
  apply rmatch_sound in H as (p & rest' & go & -> & M & H).
  inversion H; subst. exists p, go. auto.
Qed.

Lemma match_at_complete r p go rest :
  matches r p None go -> match_at r (p ++ rest) <> None.
Proof.
  intros M. unfold match_at. eapply rmatch_complete; [eassumption|].
  discriminate.
Qed.

Lemma search_sound r s g rest :
  search r s = Some (g, rest) ->
  exists pre p go, occurs pre p rest s /\ matches r p None go
                   /\ g = group_text go.
Proof.
  unfold occurs. induction s as [|c s IH]; simpl; intros H.
  - destruct (match_at r "") as [[g' rest']|] eqn:Hm; [|discriminate].
    inversion H; subst. apply match_at_sound in Hm as (p & go & E & M & ->).
    exists "", p, go. auto.
  - destruct (match_at r (String c s)) as [[g' rest']|] eqn:Hm.
    + inversion H; subst. apply match_at_sound in Hm as (p & go & E & M & ->).
      exists "", p, go. auto.
    + destruct (IH H) as (pre & p & go & -> & M & ->).
      exists (String c pre), p, go. auto.
Qed.

Lemma search_complete r pre p post go :
  matches r p None go -> search r (pre ++ p ++ post) <> None.
Proof.
  intros M. induction pre as [|c pre IH]; simpl.
  - pose proof (match_at_complete r p go post M) as Hm.
    destruct (p ++ post)%string; simpl;
      destruct (match_at r _); try discriminate; contradiction.
  - destruct (match_at r (String c (pre ++ p ++ post))); [discriminate|].
    exact IH.
Qed.

Lemma findall_nil_iff r s : findall r s = [] <-> search r s = None.
Proof.
  unfold findall. induction s as [|c s IH]; simpl.
  - destruct (match_at r "") as [[g rest]|]; split; congruence.
  - destruct (match_at r (String c s)) as [[g rest]|]; [split; congruence|].
    exact IH.
Qed.

Lemma findall_go_sound r s : forall skip g,
  In g (findall_go r s skip) ->
  exists pre p post go, occurs pre p post s /\ matches r p None go
                        /\ g = group_text go.
Proof.
  unfold occurs. induction s as [|c s IH]; simpl; intros skip g H.
  - destruct skip; [|contradiction].
    destruct (match_at r "") as [[g' rest]|] eqn:Hm; [|contradiction].
    destruct H as [<-|[]].
    apply match_at_sound in Hm as (p & go & E & M & ->).
    exists "", p, rest, go. auto.
  - assert (Htail : forall n, In g (findall_go r s n) ->
              exists pre p post go,
                String c s = (pre ++ p ++ post)%string
                /\ matches r p None go /\ g = group_text go).
    { intros n Hn. destruct (IH n g Hn) as (pre & p & post & go & -> & M & ->).
      exists (String c pre), p, post, go. auto. }
    destruct skip as [|n]; [|now apply (Htail n)].
    destruct (match_at r (String c s)) as [[g' rest]|] eqn:Hm.
    + destruct H as [<-|H]; [|now apply (Htail _ H)].
      apply match_at_sound in Hm as (p & go & E & M & ->).
      exists "", p, rest, go. auto.
    + now apply (Htail 0).
Qed.

End ReFacts.

(* ================================================================== *)
(** ** The two patterns of the parser *)

Module PatternFacts.
Import Re StrFacts ReFacts.

Ltac inv H := inversion H; subst; clear H.

Lemma decimal_not_dot c : Py.isdecimal c = true -> Ascii.eqb c "." = false.
Proof.
  intros H. destruct (Ascii.eqb_spec c "."); [subst; discriminate|reflexivity].
Qed.

Lemma fields_go_number cur d rest :
  Py.forallb_str Py.isdecimal d = true ->
  fields_go cur (d ++ rest) = fields_go (cur ++ d) rest.
Proof.
  revert cur. induction d as [|c d IH]; simpl; intros cur H.
  - now rewrite str_app_nil_r.
  - apply andb_prop in H as [Hc Hd].
    rewrite (decimal_not_dot c Hc), IH by assumption.
    now rewrite str_app_assoc.
Qed.

Lemma plus_digit_number p g g' :
  matches (Plus Digit) p g g' -> is_number p = true /\ g' = g.
Proof.
  intros H. inv H. split; [|reflexivity].
  unfold is_number. destruct p; [contradiction|]. simpl in *. assumption.
Qed.

Lemma lit_inv c p g g' :
  matches (One (Lit c)) p g g' -> p = String c "" /\ g' = g.
Proof.
  intros H. inv H. simpl in *.
  match goal with H : Ascii.eqb _ _ = true |- _ =>
    apply Ascii.eqb_eq in H; subst end.
  auto.
Qed.

Lemma is_number_forallb d :
  is_number d = true -> Py.forallb_str Py.isdecimal d = true.
Proof. unfold is_number. intros H. now apply andb_prop in H. Qed.

Lemma dotted_quad_of_numbers a b c d :
  is_number a = true -> is_number b = true ->
  is_number c = true -> is_number d = true ->
  is_dotted_quad (a ++ "." ++ b ++ "." ++ c ++ "." ++ d) = true.
Proof.
  intros Ha Hb Hc Hd. unfold is_dotted_quad.
  rewrite fields_go_number by now apply is_number_forallb.
  simpl. rewrite fields_go_number by now apply is_number_forallb.
  simpl. rewrite fields_go_number by now apply is_number_forallb.
  simpl.
  replace d with (d ++ "")%string at 1 by apply str_app_nil_r.
  rewrite fields_go_number by now apply is_number_forallb.
  simpl. now rewrite Ha, Hb, Hc, Hd.
Qed.

(** What [ip_re] reads is a dotted quad, and it is the text of its group. *)
Lemma ip_re_matches p go :
  matches ip_re p None go -> go = Some p /\ is_dotted_quad p = true.
Proof.
  unfold ip_re. intros H. inv H. split; [reflexivity|].
  repeat match goal with
         | H : matches (Cat _ _) _ _ _ |- _ => inv H
         | H : matches (Plus Digit) _ _ _ |- _ =>
             apply plus_digit_number in H as [? ?]
         | H : matches (One (Lit _)) _ _ _ |- _ =>
             apply lit_inv in H as [? ?]; subst
         end.
  now apply dotted_quad_of_numbers.
Qed.

Lemma star_not_dotted_quad : is_dotted_quad "*" = false.
Proof. reflexivity. Qed.

(** The address parsed from a line is a dotted quad, or the sentinel when
    the line holds none. *)
Lemma ip_of_cases line :
  (Re.search ip_re line = None /\ ip_of line = "*")
  \/ (Re.search ip_re line <> None /\ is_dotted_quad (ip_of line) = true).
Proof.
  unfold ip_of. destruct (search ip_re line) as [[g rest]|] eqn:Hs.
  - right. split; [discriminate|].
    apply search_sound in Hs as (pre & p & go & _ & M & ->).
    apply ip_re_matches in M as [-> Hq]. exact Hq.
  - left. auto.
Qed.

(** What [rtt_re] reads is a sample, and the text of its group is the
    number of the sample. *)
Lemma rtt_re_matches p go :
  matches rtt_re p None go -> exists d, go = Some d /\ rtt_sample p d.
Proof.
  unfold rtt_re. intros H.
  repeat match goal with
         | H : matches (Cat _ _) _ _ _ |- _ => inv H
         | H : matches (One (Lit _)) _ _ _ |- _ =>
             apply lit_inv in H as [? ?]; subst
         | H : matches (Group _) _ _ _ |- _ => inv H
         | H : matches (Plus Digit) _ _ _ |- _ =>
             apply plus_digit_number in H as [? ?]; subst
         | H : matches (Star _) _ _ _ |- _ => inv H
         end.
  match goal with
  | Hd : is_number ?d = true |- _ => exists d; split; [reflexivity|]
  end.
  match goal with
  | H : matches (Opt _) _ _ _, Hs : Py.forallb_str _ ?ws = true |- _ =>
      inv H; [exists "", ws | exists "<", ws]
  end.
  - repeat split; auto.
  - match goal with
    | H : atom_ok (Lit _) _ = true |- _ =>
        unfold atom_ok in H; apply Ascii.eqb_eq in H; subst
    end.
    repeat split; auto.
Qed.

Lemma rtt_sample_matches p d :
  rtt_sample p d -> matches rtt_re p None (Some d).
Proof.
  intros (lt & ws & Hlt & Hd & Hws & ->). unfold rtt_re.
  apply (MCat _ _ lt _ None None (Some d)).
  - destruct Hlt as [-> | ->]; [constructor|]. constructor. reflexivity.
  - apply (MCat _ _ d _ None (Some d) (Some d)).
    + apply (MGroup (Plus Digit) d None None).
      unfold is_number in Hd. apply andb_prop in Hd as [Hne Hd].
      constructor; [|exact Hd].
      intros ->. discriminate.
    + apply (MCat _ _ ws "ms" (Some d) (Some d) (Some d));
        [now constructor|].
      apply (MCat _ _ "m" "s" (Some d) (Some d) (Some d));
        constructor; reflexivity.
Qed.

Lemma int_go_nonneg s : forall acc n,
  (0 <= acc)%Z -> Py.int_go acc s = Some n -> (0 <= n)%Z.
Proof.
  induction s as [|c s IH]; intros acc n Hacc H; cbn [Py.int_go] in H.
  - inversion H; subst; assumption.
  - destruct (Py.isdecimal c) eqn:Hc; [|discriminate].
    eapply IH; [|exact H].
    unfold Py.isdecimal, Py.between in Hc.
    apply andb_prop in Hc as [Hlo _]. apply N.leb_le in Hlo. lia.
Qed.

Lemma int_go_number s : forall acc,
  Py.forallb_str Py.isdecimal s = true -> Py.int_go acc s <> None.
Proof.
  induction s as [|c s IH]; intros acc H; cbn [Py.int_go Py.forallb_str] in *;
    [discriminate|].
  apply andb_prop in H as [-> Hs]. now apply IH.
Qed.

(** [int] does not raise on a run of decimal digits, and its value is not
    negative. *)
Lemma int_number d :
  is_number d = true -> exists n, Py.int d = Some n /\ (0 <= n)%Z.
Proof.
  unfold is_number, Py.int. intros H. apply andb_prop in H as [Hne Hd].
  apply negb_true_iff in Hne. rewrite Hne.
  destruct (Py.int_go 0 d) as [n|] eqn:Hn.
  - exists n. split; [reflexivity|]. eapply int_go_nonneg; [|eassumption]. lia.
  - now apply int_go_number in Hn.
Qed.

Lemma ints_numbers ds :
  Forall (fun d => is_number d = true) ds ->
  exists ns, ints ds = Some ns /\ Forall (fun n => (0 <= n)%Z) ns
             /\ List.length ns = List.length ds.
Proof.
  induction 1 as [|d ds Hd _ (ns & Hns & Hpos & Hlen)]; simpl.
  - exists []. auto.
  - destruct (int_number d Hd) as (n & -> & Hn). rewrite Hns.
    exists (n :: ns). simpl. auto.
Qed.

(** Every text [findall] returns for [rtt_re] is the number of a sample
    that occurs in the line. *)
Lemma findall_rtt_samples line d :
  In d (Re.findall rtt_re line) ->
  exists pre p post, occurs pre p post line /\ rtt_sample p d.
Proof.
  intros H. apply findall_go_sound in H as (pre & p & post & go & Ho & M & ->).
  apply rtt_re_matches in M as (d & -> & Hs).
  exists pre, p, post. auto.
Qed.

Lemma findall_rtt_numbers line :
  Forall (fun d => is_number d = true) (Re.findall rtt_re line).
Proof.
  apply Forall_forall. intros d H.
  apply findall_rtt_samples in H as (pre & p & post & _ & Hs).
  destruct Hs as (lt & ws & _ & Hd & _). exact Hd.
Qed.

(** [findall] returns nothing for [rtt_re] exactly on the lines in which no
    sample occurs. *)
Lemma findall_rtt_nil line :
  Re.findall rtt_re line = [] <->
  ~ exists pre p post d, occurs pre p post line /\ rtt_sample p d.
Proof.
  rewrite findall_nil_iff. split.
  - intros Hnone (pre & p & post & d & Ho & Hs). unfold occurs in Ho. subst.
    apply rtt_sample_matches in Hs.
    now apply (search_complete rtt_re pre p post _ Hs).
  - intros Hno. destruct (search rtt_re line) as [[g rest]|] eqn:Hs;
      [|reflexivity].
    exfalso. apply Hno.
    apply search_sound in Hs as (pre & p & go & Ho & M & _).
    apply rtt_re_matches in M as (d & _ & Hd).
    exists pre, p, rest, d. auto.
Qed.

End PatternFacts.

(* ================================================================== *)
(** ** The loop of the parser *)

Module ScanFacts.
Import StrFacts PatternFacts.

(** The records already in [hops] are kept, and new ones come after. *)
Lemma scan_acc target out : forall hops,
  scan target out hops = on_ok (app hops) (scan target out []).
Proof.
  induction out as [|line rest IH]; intros hops; simpl.
  - now rewrite app_nil_r.
  - destruct (hop_of_line line) as [| e | h]; [apply IH | reflexivity |].
    destruct (String.eqb (ip h) target); [reflexivity|].
    rewrite IH. rewrite (IH [h]).
    destruct (scan target rest []); simpl; [|reflexivity].
    now rewrite <- app_assoc.
Qed.

Lemma scan_all_acc out : forall hops,
  scan_all out hops = on_ok (app hops) (scan_all out []).
Proof.
  induction out as [|line rest IH]; intros hops; simpl.
  - now rewrite app_nil_r.
  - destruct (hop_of_line line) as [| e | h]; [apply IH | reflexivity |].
    rewrite IH. rewrite (IH [h]).
    destruct (scan_all rest []); simpl; [|reflexivity].
    now rewrite <- app_assoc.
Qed.

(** Lines that end without [break] hand their records to what follows. *)
Lemma scan_app target l1 : forall rest hs acc,
  scan target l1 [] = Ok hs ->
  Forall (fun h => ip h <> target) hs ->
  scan target (l1 ++ rest) acc = scan target rest (acc ++ hs).
Proof.
  induction l1 as [|line l1 IH]; intros rest hs acc Hscan Hno; simpl in *.
  - inversion Hscan; subst. now rewrite app_nil_r.
  - destruct (hop_of_line line) as [| e | h]; [now apply IH | discriminate |].
    destruct (String.eqb_spec (ip h) target) as [Heq|Hne].
    + inversion Hscan; subst hs. inversion Hno; subst. contradiction.
    + rewrite scan_acc in Hscan.
      destruct (scan target l1 []) as [hs1|] eqn:H1; [|discriminate].
      simpl in Hscan. inversion Hscan; subst hs. inversion Hno; subst.
      rewrite (IH rest hs1 (acc ++ [h]) eq_refl) by assumption.
      now rewrite <- app_assoc.
Qed.


Lemma scan_all_records out hs :
  scan_all out [] = Ok hs -> hs = records out.
Proof.
  revert hs. induction out as [|line rest IH]; intros hs H; simpl in *.
  - now inversion H.
  - destruct (hop_of_line line) as [| e | h]; [now apply IH | discriminate |].
    rewrite scan_all_acc in H.
    destruct (scan_all rest []) as [hs1|]; [|discriminate].
    simpl in H. inversion H; subst. now rewrite (IH hs1 eq_refl).
Qed.

(** The address of a record is a dotted quad or the sentinel. *)
Lemma hop_of_line_ip line h :
  hop_of_line line = Rec h -> ip h = "*" \/ is_dotted_quad (ip h) = true.
Proof.
  unfold hop_of_line. intros H.
  repeat match type of H with
         | (if ?c then _ else _) = _ => destruct c; [discriminate|]
         | match ?x with _ => _ end = _ => destruct x; try discriminate
         end.
  inversion H; subst; simpl.
  destruct (ip_of_cases (Py.strip line)) as [[_ ->]|[_ Hq]]; auto.
Qed.

(** With a target that no record can carry, the [break] is never taken. *)
Lemma scan_no_break target out : forall hops,
  is_dotted_quad target = false -> target <> "*" ->
  scan target out hops = scan_all out hops.
Proof.
  induction out as [|line rest IH]; intros hops Hq Hs; simpl; [reflexivity|].
  destruct (hop_of_line line) as [| e | h] eqn:Hl; auto.
  destruct (String.eqb_spec (ip h) target) as [Heq|_]; [|auto].
  exfalso. apply hop_of_line_ip in Hl as [Hstar|Hquad]; congruence.
Qed.

End ScanFacts.

(* ================================================================== *)
(** ** The loop of the prober *)

Module ProbeFacts.

Section Loop.
Variable E : Env.
Variable self : MTRTracer.

Let target := target_host self.

(** One round of the loop, with the world written out. *)
Lemma probe_loop_S n t hops w :
  probe_loop E self (S n) t hops w =
  let w2 := mkWorld (conf_iface w) (console w)
                    (wire w ++ [mkProbe target t]) (S (clock_reads w)) in
  let w3 := mkWorld (conf_iface w) (console w)
                    (wire w ++ [mkProbe target t]) (S (S (clock_reads w))) in
  let latency :=
    Qred ((time_at E (S (clock_reads w)) - time_at E (clock_reads w)) * 1000) in
  match answer E (conf_iface w) (mkProbe target t) 2 with
  | Raise e => (Raise e, w2)
  | Ok None => probe_loop E self n (t + 1) (hops ++ [mkHop t "*" (-1)]) w3
  | Ok (Some reply) =>
      let hops' := hops ++ [mkHop t (reply_addr reply) latency] in
      if String.eqb (reply_addr reply) target then (Ok hops', w3)
      else probe_loop E self n (t + 1) hops' w3
  end.
Proof.
  subst target. cbn [probe_loop]. unfold bind, time_time, srp. simpl.
  destruct (answer E (conf_iface w) (mkProbe (target_host self) t) 2) as [[reply|]|e];
    simpl; try reflexivity.
  destruct (String.eqb (reply_addr reply) (target_host self)); reflexivity.
Qed.

(** The loop writes neither [conf.iface] nor the console, and the probes it
    sends are added after those already sent. *)
Lemma probe_loop_frame n : forall t hops w,
  conf_iface (snd (probe_loop E self n t hops w)) = conf_iface w
  /\ console (snd (probe_loop E self n t hops w)) = console w
  /\ exists more, wire (snd (probe_loop E self n t hops w)) = wire w ++ more.
Proof.
  induction n as [|n IH]; intros t hops w.
  - simpl. repeat split; auto. exists []. now rewrite app_nil_r.
  - rewrite probe_loop_S. cbv zeta.
    destruct (answer E (conf_iface w) (mkProbe target t) 2) as [[reply|]|e].
    + destruct (String.eqb (reply_addr reply) target).
      * simpl. repeat split; auto. eexists; reflexivity.
      * match goal with |- context [probe_loop E self n ?t' ?h' ?w'] =>
          destruct (IH t' h' w') as (Hc & Ho & more & Hw) end.
        rewrite Hc, Ho, Hw. simpl. repeat split; auto.
        rewrite <- app_assoc. eexists; reflexivity.
    + match goal with |- context [probe_loop E self n ?t' ?h' ?w'] =>
        destruct (IH t' h' w') as (Hc & Ho & more & Hw) end.
      rewrite Hc, Ho, Hw. simpl. repeat split; auto.
      rewrite <- app_assoc. eexists; reflexivity.
    + simpl. repeat split; auto. eexists; reflexivity.
Qed.

(** A loop that has a round to run sends the probe of that round first. *)
Lemma probe_loop_first n t hops w :
  exists more,
    wire (snd (probe_loop E self (S n) t hops w))
    = wire w ++ mkProbe target t :: more.
Proof.
  rewrite probe_loop_S. cbv zeta.
  destruct (answer E (conf_iface w) (mkProbe target t) 2) as [[reply|]|e].
  - destruct (String.eqb (reply_addr reply) target).
    + simpl. now exists [].
    + match goal with |- context [probe_loop E self n ?t' ?h' ?w'] =>
        destruct (probe_loop_frame n t' h' w') as (_ & _ & more & Hw) end.
      rewrite Hw. simpl. rewrite <- app_assoc. now exists more.
  - match goal with |- context [probe_loop E self n ?t' ?h' ?w'] =>
      destruct (probe_loop_frame n t' h' w') as (_ & _ & more & Hw) end.
    rewrite Hw. simpl. rewrite <- app_assoc. now exists more.
  - simpl. now exists [].
Qed.

(** The records a loop that ends adds: one for each round run, numbered
    from the first round on, at least one when there is a round to run. *)
Lemma probe_loop_ok n : forall t hops w hs w',
  probe_loop E self n t hops w = (Ok hs, w') ->
  exists new, hs = hops ++ new
              /\ map hop new = iota t (List.length new)
              /\ (List.length new <= n)%nat
              /\ (n <> O -> new <> []).
Proof.
  induction n as [|n IH]; intros t hops w hs w' H.
  - simpl in H. inversion H; subst. exists []. rewrite app_nil_r.
    repeat split; auto.
  - rewrite probe_loop_S in H. cbv zeta in H.
    destruct (answer E (conf_iface w) (mkProbe target t) 2) as [[reply|]|e];
      [| |discriminate].
    + destruct (String.eqb (reply_addr reply) target).
      * inversion H; subst. eexists [_]. simpl.
        repeat split; auto; [lia|discriminate].
      * apply IH in H as (new & -> & Hn & Hl & _).
        eexists (_ :: new). rewrite <- app_assoc. simpl.
        repeat split; auto; [now rewrite Hn | lia | discriminate].
    + apply IH in H as (new & -> & Hn & Hl & _).
      eexists (_ :: new). rewrite <- app_assoc. simpl.
      repeat split; auto; [now rewrite Hn | lia | discriminate].
Qed.

(** When no reply gives the sentinel as its address, every record added
    pairs the sentinel address with the sentinel latency. *)
Lemma probe_loop_paired n : forall t hops w hs w',
  (forall iface p timeout reply,
      answer E iface p timeout = Ok (Some reply) ->
      reply_addr reply <> "*") ->
  Forall (fun h => sentinel_paired h = true) hops ->
  probe_loop E self n t hops w = (Ok hs, w') ->
  Forall (fun h => sentinel_paired h = true) hs.
Proof.
  induction n as [|n IH]; intros t hops w hs w' Hans Hhops H.
  - simpl in H. now inversion H; subst.
  - rewrite probe_loop_S in H. cbv zeta in H.
    destruct (answer E (conf_iface w) (mkProbe target t) 2) as [[reply|]|e] eqn:Ha;
      [| |discriminate].
    + assert (Hnew : Forall (fun h => sentinel_paired h = true)
               (hops ++ [mkHop t (reply_addr reply)
                  (Qred ((time_at E (S (clock_reads w))
                          - time_at E (clock_reads w)) * 1000))])).
      { apply Forall_app. split; [assumption|]. constructor; [|constructor].
        unfold sentinel_paired. simpl.
        apply Hans in Ha. apply String.eqb_neq in Ha. now rewrite Ha. }
      destruct (String.eqb (reply_addr reply) target).
      * now inversion H; subst.
      * eapply IH; eassumption.
    + eapply IH; [exact Hans| |exact H].
      apply Forall_app. split; [assumption|]. constructor; [|constructor].
      reflexivity.
Qed.

(** The loop lets out what a probe raises, at whatever round: when the
    probes before it let the loop go on, the exception of the probe is that
    of the loop. *)
Lemma probe_loop_raises e : forall k n t hops w,
  (k < n)%nat ->
  goes_on_for E self (conf_iface w) k t = true ->
  answer E (conf_iface w) (mkProbe target (t + Z.of_nat k)) 2 = Raise e ->
  fst (probe_loop E self n t hops w) = Raise e.
Proof.
  induction k as [|k IH]; intros n t hops w Hk Hgo Ha;
    (destruct n as [|n]; [lia|]); rewrite probe_loop_S; cbv zeta.
  - replace (t + Z.of_nat 0)%Z with t in Ha by lia. now rewrite Ha.
  - cbn [goes_on_for] in Hgo. apply andb_prop in Hgo as [Hgo Hrest].
    unfold goes_on in Hgo. fold target in Hgo.
    replace (t + Z.of_nat (S k))%Z with (t + 1 + Z.of_nat k)%Z in Ha by lia.
    destruct (answer E (conf_iface w) (mkProbe target t) 2) as [[reply|]|e'];
      [| |discriminate].
    + apply negb_true_iff in Hgo. rewrite Hgo.
      apply IH; [lia | exact Hrest | exact Ha].
    + apply IH; [lia | exact Hrest | exact Ha].
Qed.

End Loop.

End ProbeFacts.

(* ================================================================== *)
(** ** The strategies and [trace] *)

Module TraceFacts.
Import ScanFacts ProbeFacts.

Section Strategies.
Variable E : Env.
Variable self : MTRTracer.

(** [_tracert_trace], by what the subprocess does. *)
Lemma tracert_trace_cases w :
  _tracert_trace E self w =
  match process E (tracert_argv self) with
  | SpawnFails e =>
      if is_Exception e
      then (Ok [], printed w ("tracert failed: " ++ exn_text e))
      else (Raise e, w)
  | Runs d rc out =>
      if Qle_bool d tracert_timeout
      then (parse (target_host self) out, w)
      else (Ok [], printed w "tracert failed: TimeoutExpired")
  end.
Proof.
  unfold _tracert_trace, bind, try_except, subprocess_run, parse.
  destruct (process E (tracert_argv self)) as [e|d rc out].
  - unfold raise. destruct e; reflexivity.
  - destruct (Qle_bool d tracert_timeout); reflexivity.
Qed.

(** [_scapy_trace], by what the interface list is. *)
Lemma scapy_trace_cases w :
  _scapy_trace E self w =
  match if_list E with
  | Raise e => (Raise e, w)
  | Ok [] => probe_loop E self (Z.to_nat (max_hops self)) 1 [] w
  | Ok (i :: _) =>
      probe_loop E self (Z.to_nat (max_hops self)) 1 []
                 (mkWorld i (console w) (wire w) (clock_reads w))
  end.
Proof.
  unfold _scapy_trace, bind, get_if_list, lift, set_conf_iface, ret.
  destruct (if_list E) as [[|i l]|e]; reflexivity.
Qed.

(** The external-tool strategy does not write [conf.iface] and sends no
    probe. *)
Lemma tracert_trace_frame w :
  conf_iface (snd (_tracert_trace E self w)) = conf_iface w
  /\ wire (snd (_tracert_trace E self w)) = wire w.
Proof.
  rewrite tracert_trace_cases.
  destruct (process E (tracert_argv self)) as [e|d rc out].
  - destruct (is_Exception e); auto.
  - destruct (Qle_bool d tracert_timeout); auto.
Qed.

End Strategies.



(** What a line that yields a record is made of. *)
Lemma hop_of_line_rec line0 h :
  hop_of_line line0 = Rec h ->
  exists p0 rest n rtts lat,
    Py.split (Py.strip line0) = p0 :: rest
    /\ Py.str_isdigit p0 = true
    /\ Py.int p0 = Some n
    /\ ints (Re.findall rtt_re (Py.strip line0)) = Some rtts
    /\ latency_of rtts = Ok lat
    /\ h = mkHop n (ip_of (Py.strip line0)) lat.
Proof.
  unfold hop_of_line. intros H.
  destruct (Py.is_empty (Py.strip line0)); [discriminate|].
  destruct (_ || _); [discriminate|].
  destruct (Py.split (Py.strip line0)) as [|p0 rest]; [discriminate|].
  destruct (Py.str_isdigit p0) eqn:Hd; [|discriminate]. simpl in H.
  destruct (Py.int p0) as [n|] eqn:Hn; [|discriminate].
  destruct (ints _) as [rtts|] eqn:Hr; [|discriminate].
  destruct (latency_of rtts) as [lat|e] eqn:Hl; [|discriminate].
  inversion H; subst. exists p0, rest, n, rtts, lat.
  repeat split; auto.
Qed.

Lemma sum_nonneg ns :
  Forall (fun n => (0 <= n)%Z) ns -> (0 <= sum ns)%Z.
Proof.
  induction 1 as [|n ns Hn _ IH]; simpl; [lia|]. unfold sum in *. simpl. lia.
Qed.

Lemma mean_nonneg rtts :
  Forall (fun n => (0 <= n)%Z) rtts -> (0 <= mean rtts)%Q.
Proof.
  intros Hpos. destruct rtts as [|n ns]; [discriminate|].
  unfold mean. apply Qle_shift_div_l.
  - unfold len, Qlt, inject_Z. cbn [Qnum Qden List.length]. lia.
  - rewrite Qmult_0_l. apply sum_nonneg in Hpos.
    unfold Qle, inject_Z. cbn [Qnum Qden]. lia.
Qed.

(** The latency of round-trip times, none of them negative: the double
    nearest to their mean, or [OverflowError]. *)
Lemma latency_of_nearest rtts :
  rtts <> [] -> Forall (fun n => (0 <= n)%Z) rtts ->
  latency_of rtts = match Float.nearest (mean rtts) with
                    | Some r => Ok r
                    | None => Raise OverflowError
                    end.
Proof.
  intros Hne Hpos. destruct rtts as [|n ns]; [contradiction|].
  unfold latency_of, mean. apply FloatFacts.true_div_pos.
  - now apply sum_nonneg.
  - unfold len. cbn [List.length]. lia.
Qed.

(** A latency computed from round-trip times is not negative, so it is not
    the sentinel. *)
Lemma latency_of_mean rtts lat :
  rtts <> [] -> Forall (fun n => (0 <= n)%Z) rtts ->
  latency_of rtts = Ok lat ->
  Float.nearest (mean rtts) = Some lat
  /\ (0 <= lat)%Q
  /\ Qeq_bool lat (-1) = false.
Proof.
  intros Hne Hpos H. rewrite (latency_of_nearest rtts Hne Hpos) in H.
  destruct (Float.nearest (mean rtts)) as [r|] eqn:Hn; [|discriminate].
  injection H as ->. split; [reflexivity|].
  destruct (FloatFacts.nearest_correct (mean rtts) lat
              (mean_nonneg rtts Hpos) Hn) as (H0 & _ & _).
  split; [exact H0|].
  destruct (Qeq_bool lat (-1)) eqn:Hb; [|reflexivity].
  apply Qeq_bool_iff in Hb. lra.
Qed.

End TraceFacts.

(* ================================================================== *)
(** ** Properties of the engine *)

Import StrFacts PatternFacts ScanFacts ProbeFacts TraceFacts.

(** C1, as stated, fails.  On Linux with the default method the tool cannot
    be started, the external-tool strategy returns no hop, and [trace]
    returns that empty list: the prober, which would have found the host at
    the third hop, is not run. *)
Lemma trace_no_fallback_off_windows :
  exists w',
    _tracert_trace Sample.linux (init "10.0.0.9") Sample.w0 = (Ok [], w')
    /\ trace Sample.linux (init "10.0.0.9") Sample.w0 = (Ok [], w')
    /\ wire w' = []
    /\ exists h hs w'',
         _scapy_trace Sample.linux (init "10.0.0.9") w' = (Ok (h :: hs), w'').
Proof.
  eexists. split; [vm_compute; reflexivity|].
  split; [vm_compute; reflexivity|].
  split; [reflexivity|].
  do 3 eexists. vm_compute. reflexivity.
Qed.

(** C1 (amended).  When the external-tool strategy returns no hop: with the
    method "tracert" on a platform whose name starts with "win", [trace]
    runs the raw-probe strategy next and returns its result, empty or not;
    with the method "tracert" on another platform, and with a method that is
    neither "tracert" nor "scapy", [trace] returns the empty list of the
    external-tool strategy and the raw-probe strategy is not run. *)
Theorem trace_fallback E self w w'
  (Hempty : _tracert_trace E self w = (Ok [], w')) :
  (method self = "tracert" ->
   Py.startswith (sys_platform E) "win" = true ->
   trace E self w = _scapy_trace E self w')
  /\ (method self = "tracert" ->
      Py.startswith (sys_platform E) "win" = false ->
      trace E self w = (Ok [], w') /\ wire w' = wire w)
  /\ (method self <> "tracert" -> method self <> "scapy" ->
      trace E self w = (Ok [], w') /\ wire w' = wire w).
Proof.
  assert (Hwire : wire w' = wire w).
  { pose proof (tracert_trace_frame E self w) as [_ Hw].
    now rewrite Hempty in Hw. }
  unfold trace. split; [|split].
  - intros Hm Hwin. rewrite Hm, Hwin. simpl.
    unfold bind. now rewrite Hempty.
  - intros Hm Hwin. rewrite Hm, Hwin. simpl. now split.
  - intros Ht Hs. apply String.eqb_neq in Ht, Hs. rewrite Ht, Hs. simpl.
    now split.
Qed.

Lemma trace_fallback_witness :
  exists w',
    _tracert_trace Sample.windows_no_tool (init "10.0.0.9") Sample.w0
    = (Ok [], w')
    /\ trace Sample.windows_no_tool (init "10.0.0.9") Sample.w0
       = _scapy_trace Sample.windows_no_tool (init "10.0.0.9") w'.
Proof.
  eexists. split; [vm_compute; reflexivity|].
  apply (trace_fallback Sample.windows_no_tool (init "10.0.0.9") Sample.w0);
    reflexivity.
Defined.

(** C2, as stated, fails.  On Windows with the default method, when the tool
    cannot be started and the process may not send raw packets, the
    [PermissionError] of [srp] leaves [trace]. *)
Lemma trace_raises_permission_error :
  fst (trace Sample.windows_unprivileged (init "10.0.0.9") Sample.w0)
  = Raise PermissionError.
Proof. vm_compute. reflexivity. Qed.

(** C2 (amended).  An exception of class [Exception] raised by the
    subprocess call is caught inside the external-tool strategy, which then
    returns no hop; an exception of another class raised by that call, and
    an exception raised while the output is parsed, leave that strategy.
    The raw-probe strategy catches nothing: an exception raised by the
    enumeration of the interfaces, or by the sending of a probe at whatever
    round the loop reaches, leaves it, of whatever class.  And [trace]
    catches nothing: it returns what the strategy it runs returns, and
    raises what that one raises, in its three branches, the fall-back on
    Windows among them. *)
Theorem strategy_exceptions E self w :
  (forall e,
      fst (subprocess_run E (tracert_argv self) tracert_timeout w) = Raise e ->
      is_Exception e = true ->
      fst (_tracert_trace E self w) = Ok [])
  /\ (forall e, if_list E = Raise e -> _scapy_trace E self w = (Raise e, w))
  /\ (forall e l k,
        if_list E = Ok l ->
        (k < Z.to_nat (max_hops self))%nat ->
        goes_on_for E self (probe_iface E w) k 1 = true ->
        answer E (probe_iface E w)
               (mkProbe (target_host self) (1 + Z.of_nat k)) 2 = Raise e ->
        fst (_scapy_trace E self w) = Raise e)
  /\ (method self = "scapy" -> trace E self w = _scapy_trace E self w)
  /\ (method self = "tracert" ->
      Py.startswith (sys_platform E) "win" = true ->
      (forall w', _tracert_trace E self w = (Ok [], w') ->
                  trace E self w = _scapy_trace E self w')
      /\ (forall e w', _tracert_trace E self w = (Raise e, w') ->
                       trace E self w = (Raise e, w')))
  /\ (method self <> "scapy" ->
      method self <> "tracert"
      \/ Py.startswith (sys_platform E) "win" = false ->
      trace E self w = _tracert_trace E self w)
  /\ (forall e,
        fst (subprocess_run E (tracert_argv self) tracert_timeout w) = Raise e ->
        is_Exception e = false ->
        fst (_tracert_trace E self w) = Raise e)
  /\ (forall proc e,
        fst (subprocess_run E (tracert_argv self) tracert_timeout w) = Ok proc ->
        parse (target_host self) (cp_stdout proc) = Raise e ->
        fst (_tracert_trace E self w) = Raise e).
Proof.
  split; [|split; [|split; [|split; [|split; [|split; [|split]]]]]].
  - intros e. rewrite tracert_trace_cases. unfold subprocess_run.
    destruct (process E (tracert_argv self)) as [e'|d rc out]; simpl.
    + intros H Hclass. inversion H; subst. now rewrite Hclass.
    + destruct (Qle_bool d tracert_timeout); simpl; [discriminate|reflexivity].
  - intros e H. rewrite scapy_trace_cases, H. reflexivity.
  - intros e l k Hl Hk Hgo Ha. rewrite scapy_trace_cases.
    unfold probe_iface in Hgo, Ha. rewrite Hl in *.
    destruct l as [|i l]; now apply (probe_loop_raises E self e k).
  - intros Hm. unfold trace. rewrite Hm. reflexivity.
  - intros Hm Hwin. unfold trace, bind. rewrite Hm, Hwin. simpl.
    split; intros; now match goal with H : _tracert_trace _ _ _ = _ |- _ =>
                         rewrite H end.
  - intros Hs Hor. unfold trace. apply String.eqb_neq in Hs. rewrite Hs.
    destruct Hor as [Ht|Hp].
    + apply String.eqb_neq in Ht. now rewrite Ht.
    + now rewrite Hp, andb_false_r.
  - intros e. rewrite tracert_trace_cases. unfold subprocess_run.
    destruct (process E (tracert_argv self)) as [e'|d rc out]; simpl.
    + intros H Hclass. inversion H; subst. now rewrite Hclass.
    + destruct (Qle_bool d tracert_timeout); simpl; [discriminate|].
      intros H Hclass. inversion H; subst. discriminate.
  - intros proc e. rewrite tracert_trace_cases. unfold subprocess_run.
    destruct (process E (tracert_argv self)) as [e'|d rc out]; simpl;
      [discriminate|].
    destruct (Qle_bool d tracert_timeout); simpl; [|discriminate].
    intros H Hparse. inversion H; subst. exact Hparse.
Qed.

Lemma strategy_exceptions_witness :
  fst (_tracert_trace Sample.windows_refused_at_2 (init "10.0.0.9") Sample.w0)
  = Ok []
  /\ fst (_scapy_trace Sample.windows_refused_at_2 (init "10.0.0.9")
            Sample.w0)
     = Raise PermissionError.
Proof.
  destruct (strategy_exceptions Sample.windows_refused_at_2 (init "10.0.0.9")
              Sample.w0) as (Htool & _ & Hprobe & _).
  split.
  - apply (Htool FileNotFoundError); reflexivity.
  - apply (Hprobe PermissionError ["Ethernet"] 1%nat);
      [reflexivity | vm_compute; lia | reflexivity | reflexivity].
Defined.




(** C4, as stated, fails.  On a line of the tool with a round-trip time and
    no address, the parser pairs the sentinel address with the time. *)
Lemma parser_sentinel_address_with_latency :
  hop_of_line "  4     *       12 ms     *" = Rec (mkHop 4 "*" 12)
  /\ sentinel_paired (mkHop 4 "*" 12) = false.
Proof. vm_compute. split; reflexivity. Qed.

(** C4 (amended).  On the raw-probe path, when no reply gives the text of
    the sentinel as its source address, every record whose address is the
    sentinel has the sentinel latency.  In the parser the two fields are set
    apart from each other: the address is the sentinel exactly when the line
    holds no dotted quad, and the latency is the sentinel exactly when the
    line holds no round-trip sample. *)
Theorem sentinel_pairing E self w hops w'
  (Hreplies : forall iface p timeout reply,
      answer E iface p timeout = Ok (Some reply) -> reply_addr reply <> "*")
  (Hrun : _scapy_trace E self w = (Ok hops, w')) :
  Forall (fun h => sentinel_paired h = true) hops
  /\ forall line h,
       hop_of_line line = Rec h ->
       (ip h = "*" <-> Re.search ip_re (Py.strip line) = None)
       /\ (Qeq_bool (latency h) (-1) = true
           <-> Re.findall rtt_re (Py.strip line) = []).
Proof.
  split.
  - rewrite scapy_trace_cases in Hrun.
    destruct (if_list E) as [[|i l]|e]; [| |discriminate];
      eapply probe_loop_paired; eauto.
  - intros line h Hl.
    apply hop_of_line_rec in Hl
      as (p0 & rest & n & rtts & lat & _ & _ & _ & Hr & Hlat & ->).
    simpl. split.
    + destruct (ip_of_cases (Py.strip line)) as [[Hs Hi]|[Hs Hi]].
      * rewrite Hi, Hs. split; reflexivity.
      * split; [|intros Hn; contradiction].
        intros Hstar. rewrite Hstar in Hi. discriminate.
    + destruct (ints_numbers _ (findall_rtt_numbers (Py.strip line)))
        as (ns & Hns & Hpos & Hlen).
      rewrite Hr in Hns. inversion Hns; subst ns.
      destruct (Re.findall rtt_re (Py.strip line)) as [|d ds].
      * destruct rtts; [|discriminate]. simpl in Hlat.
        injection Hlat as <-. split; reflexivity.
      * destruct rtts as [|r rs]; [discriminate|].
        destruct (latency_of_mean (r :: rs) lat) as (_ & _ & Hne);
          [discriminate | assumption | assumption |].
        rewrite Hne. split; discriminate.
Qed.

Lemma sentinel_pairing_witness :
  _scapy_trace Sample.linux Sample.prober Sample.w0
  = (Ok Sample.three_hops, Sample.w_probed)
  /\ Forall (fun h => sentinel_paired h = true) Sample.three_hops.
Proof.
  assert (Hrun : _scapy_trace Sample.linux Sample.prober Sample.w0
                 = (Ok Sample.three_hops, Sample.w_probed))
    by (vm_compute; reflexivity).
  split; [exact Hrun|].
  refine (proj1 (sentinel_pairing Sample.linux Sample.prober Sample.w0
                   Sample.three_hops Sample.w_probed _ Hrun)).
  intros iface p timeout reply.
  unfold Sample.linux, Sample.answers_at_3. simpl.
  destruct (ttl p <? 3)%Z; [discriminate|].
  intros H. inversion H; subst. discriminate.
Defined.

(** C6.  Let the lines of the text be [l1], then [x], then [l2], where the
    parser reads [l1] to its end (no line of [l1] raises, and none of its
    records has the target as its address) and [x] is a data line whose
    address is the target.  Then the parser returns the records of [l1]
    followed by the record of [x], and nothing of [l2], whatever [l2] is. *)
Theorem parser_stops_at_target target text l1 x l2 hs h
  (Hlines : Py.splitlines text = l1 ++ x :: l2)
  (Hbefore : scan target l1 [] = Ok hs)
  (Hnot : Forall (fun h' => ip h' <> target) hs)
  (Hx : hop_of_line x = Rec h)
  (Htarget : ip h = target) :
  parse target text = Ok (hs ++ [h]).
Proof.
  unfold parse. rewrite Hlines.
  rewrite (scan_app target l1 (x :: l2) hs [] Hbefore Hnot).
  simpl. rewrite Hx. apply String.eqb_eq in Htarget. now rewrite Htarget.
Qed.

Lemma parser_stops_at_target_witness :
  parse "10.0.0.2" Sample.tracert_output
  = Ok ([mkHop 1 "10.0.0.1" 1] ++ [mkHop 2 "10.0.0.2" Sample.lat_2]).
Proof.
  apply (parser_stops_at_target "10.0.0.2" Sample.tracert_output
           [""; "Tracing route to 10.0.0.2 over a maximum of 30 hops"; "";
            "  1    <1 ms    <1 ms    <1 ms  10.0.0.1"]
           "  2     5 ms     4 ms     7 ms  10.0.0.2"
           ["  3     6 ms     6 ms     6 ms  10.0.0.3"; ""; "Trace complete."]).
  - vm_compute. reflexivity.
  - vm_compute. reflexivity.
  - constructor; [|constructor]. simpl. discriminate.
  - vm_compute. reflexivity.
  - reflexivity.
Defined.

(** C7, as stated, fails.  The exit status of the subprocess is not read:
    when the tool exits with status 1 after printing a hop line, the
    external-tool strategy returns the record of that line. *)
Lemma tracert_nonzero_exit_parsed :
  _tracert_trace (Sample.windows_tool 1 Sample.line_1) (init "10.0.0.9")
                 Sample.w0
  = (Ok [mkHop 1 "192.168.1.1" 3], Sample.w0).
Proof. vm_compute. reflexivity. Qed.

(** C7 (amended).  The subprocess is run with a ceiling of 60 on its run
    time.  When it runs longer, the external-tool strategy returns no hop and
    raises nothing.  When it ends in time, the strategy parses what it
    printed, with whatever status it exited: the status has no part in the
    result. *)
Theorem tracert_timeout_and_status E self w d rc out
  (Hproc : process E (tracert_argv self) = Runs d rc out) :
  (tracert_timeout == 60)%Q
  /\ ((tracert_timeout < d)%Q -> fst (_tracert_trace E self w) = Ok [])
  /\ ((d <= tracert_timeout)%Q ->
      _tracert_trace E self w = (parse (target_host self) out, w)).
Proof.
  split; [reflexivity|].
  rewrite tracert_trace_cases, Hproc. split.
  - intros Hlt. destruct (Qle_bool d tracert_timeout) eqn:Hb; [|reflexivity].
    apply Qle_bool_iff in Hb. exfalso. now apply (Qlt_not_le _ _ Hlt).
  - intros Hle. apply Qle_bool_iff in Hle. now rewrite Hle.
Qed.

Lemma tracert_timeout_and_status_witness :
  fst (_tracert_trace Sample.windows_slow_tool (init "10.0.0.9") Sample.w0)
  = Ok [].
Proof.
  apply (proj1 (proj2 (tracert_timeout_and_status Sample.windows_slow_tool
                         (init "10.0.0.9") Sample.w0 3600 0 "" eq_refl))).
  reflexivity.
Defined.

(** C8, as stated, fails.  With an empty interface list and the default of
    30 hops, the raw-probe strategy sends 30 probes and, nothing answering,
    returns 30 records. *)
Lemma scapy_probes_without_interface :
  exists hops w',
    _scapy_trace Sample.no_interface (init "10.0.0.9") Sample.w0
    = (Ok hops, w')
    /\ List.length hops = 30%nat
    /\ List.length (wire w') = 30%nat.
Proof. do 2 eexists. vm_compute. repeat split; reflexivity. Qed.

(** C8 (amended).  When the interface list is empty the raw-probe strategy
    leaves [conf.iface] as it is and probes as usual: with [max_hops] at
    least 1 it sends the probe of hop 1 first, and when it returns, it
    returns at least one record. *)
Theorem scapy_without_interface E self w
  (Hnone : if_list E = Ok [])
  (Hhops : (1 <= max_hops self)%Z) :
  _scapy_trace E self w
  = probe_loop E self (Z.to_nat (max_hops self)) 1 [] w
  /\ conf_iface (snd (_scapy_trace E self w)) = conf_iface w
  /\ (exists more,
         wire (snd (_scapy_trace E self w))
         = wire w ++ mkProbe (target_host self) 1 :: more)
  /\ forall hops, fst (_scapy_trace E self w) = Ok hops -> hops <> [].
Proof.
  rewrite scapy_trace_cases, Hnone.
  destruct (Z.to_nat (max_hops self)) as [|n] eqn:Hn; [lia|].
  split; [reflexivity|]. split; [apply probe_loop_frame|].
  split; [apply probe_loop_first|].
  intros hops Hok.
  destruct (probe_loop E self (S n) 1 [] w) as [r w'] eqn:Hl.
  simpl in Hok. subst r.
  apply probe_loop_ok in Hl as (new & -> & _ & _ & Hne).
  simpl. now apply Hne.
Qed.

Lemma scapy_without_interface_witness :
  exists more,
    wire (snd (_scapy_trace Sample.no_interface (init "10.0.0.9") Sample.w0))
    = wire Sample.w0 ++ mkProbe "10.0.0.9" 1 :: more.
Proof.
  apply (scapy_without_interface Sample.no_interface (init "10.0.0.9")
           Sample.w0); [reflexivity | vm_compute; discriminate].
Defined.

(** C9, as stated, fails.  With the method "scapy", [trace] writes the first
    interface of the platform into scapy's process-wide [conf.iface], which
    held another name before the call. *)
Lemma trace_writes_conf_iface :
  conf_iface Sample.w0 = "eth0"
  /\ conf_iface
       (snd (trace Sample.linux (mkTracer "10.0.0.9" 30 "scapy") Sample.w0))
     = "lo".
Proof. vm_compute. split; reflexivity. Qed.

(** C9 (amended).  The external-tool strategy writes nothing of scapy's
    configuration.  The raw-probe strategy writes one process-wide location,
    [conf.iface]: it sets it to the first interface when the interface list
    is not empty and leaves it as it is otherwise.  So after [trace],
    [conf.iface] is what it was or the first interface of the platform. *)
Theorem trace_conf_iface E self w :
  conf_iface (snd (_tracert_trace E self w)) = conf_iface w
  /\ (forall i l, if_list E = Ok (i :: l) ->
        conf_iface (snd (_scapy_trace E self w)) = i)
  /\ (forall l, if_list E = Ok l -> l = [] ->
        conf_iface (snd (_scapy_trace E self w)) = conf_iface w)
  /\ (conf_iface (snd (trace E self w)) = conf_iface w
      \/ exists i l, if_list E = Ok (i :: l)
                     /\ conf_iface (snd (trace E self w)) = i).
Proof.
  assert (Hs : forall w0,
             conf_iface (snd (_scapy_trace E self w0)) = conf_iface w0
             \/ exists i l, if_list E = Ok (i :: l)
                            /\ conf_iface (snd (_scapy_trace E self w0)) = i).
  { intros w0. rewrite scapy_trace_cases.
    destruct (if_list E) as [[|i l]|e].
    - left. apply probe_loop_frame.
    - right. exists i, l. split; [reflexivity|].
      now rewrite (proj1 (probe_loop_frame E self _ _ _ _)).
    - left. reflexivity. }
  pose proof (tracert_trace_frame E self w) as [Ht _].
  split; [exact Ht|]. split; [|split].
  - intros i l Hl. rewrite scapy_trace_cases, Hl.
    now rewrite (proj1 (probe_loop_frame E self _ _ _ _)).
  - intros l Hl ->. rewrite scapy_trace_cases, Hl. apply probe_loop_frame.
  - unfold trace.
    destruct (String.eqb (method self) "tracert"
              && Py.startswith (sys_platform E) "win").
    + unfold bind.
      destruct (_tracert_trace E self w) as [[[|h hs]|e] w1] eqn:He;
        simpl in Ht; simpl.
      * rewrite <- Ht. apply Hs.
      * now left.
      * now left.
    + destruct (String.eqb (method self) "scapy"); [apply Hs | now left].
Qed.

(** C10, as stated, fails.  The sentinel is not a dotted quad, and with the
    sentinel as the target the parser stops at the first line without an
    address: of two such data lines it returns the record of the first. *)
Lemma parser_stops_at_sentinel_target :
  is_dotted_quad "*" = false
  /\ parse "*" "  1     *        *        *     Request timed out.
  2     *        *        *     Request timed out."
     = Ok [mkHop 1 "*" (-1)]
  /\ records (Py.splitlines
       "  1     *        *        *     Request timed out.
  2     *        *        *     Request timed out.")
     = [mkHop 1 "*" (-1); mkHop 2 "*" (-1)].
Proof. vm_compute. repeat split; reflexivity. Qed.

(** C10 (amended).  When the target is neither a dotted quad nor the
    sentinel, the parser never stops at the target: it reads every line, as
    the loop without [break] does, and when it returns, it returns one
    record for every data line of the text. *)
Theorem parser_never_stops target text
  (Hquad : is_dotted_quad target = false)
  (Hstar : target <> "*") :
  parse target text = scan_all (Py.splitlines text) []
  /\ forall hs, parse target text = Ok hs ->
                hs = records (Py.splitlines text).
Proof.
  unfold parse. rewrite (scan_no_break target _ [] Hquad Hstar).
  split; [reflexivity|]. intros hs. apply scan_all_records.
Qed.

Lemma parser_never_stops_witness :
  parse "example.org" Sample.tracert_output
  = Ok [mkHop 1 "10.0.0.1" 1; mkHop 2 "10.0.0.2" Sample.lat_2;
        mkHop 3 "10.0.0.3" 6]
  /\ parse "example.org" Sample.tracert_output
     = scan_all (Py.splitlines Sample.tracert_output) [].
Proof.
  split; [vm_compute; reflexivity|].
  apply (parser_never_stops "example.org" Sample.tracert_output);
    [reflexivity | discriminate].
Defined.

(* ================================================================== *)
(** ** More on the prober *)

Module ProbeMore.

Section Loop.
Variable E : Env.
Variable self : MTRTracer.

Let target := target_host self.

(** What a loop that ends has done: one probe and two readings of the clock
    for each record added, in the order of the records; it went past every
    record but the last because the probe had no answer or the answer came
    from elsewhere than the target; and it ended before its last round only
    on an answer from the target. *)
Lemma probe_loop_run n : forall t hops w hs w',
  probe_loop E self n t hops w = (Ok hs, w') ->
  exists new,
    hs = hops ++ new
    /\ (List.length new <= n)%nat
    /\ wire w' = wire w ++ map (fun h => mkProbe target (hop h)) new
    /\ clock_reads w' = (clock_reads w + 2 * List.length new)%nat
    /\ (forall init l, new = init ++ [l] ->
          Forall (fun h => ip h <> target \/ timed_out h) init
          /\ ((List.length new < n)%nat -> ip l = target)).
Proof.
  induction n as [|n IH]; intros t hops w hs w' H.
  - simpl in H. inversion H; subst. exists []. rewrite !app_nil_r.
    split; [reflexivity|]. split; [simpl; lia|]. split; [reflexivity|].
    split; [simpl; lia|]. intros [|a init] l Hl; discriminate.
  - rewrite ProbeFacts.probe_loop_S in H. cbv zeta in H. fold target in H.
    destruct (answer E (conf_iface w) (mkProbe target t) 2) as [[reply|]|e];
      [| |discriminate].
    + destruct (String.eqb_spec (reply_addr reply) target) as [Heq|Hne].
      * inversion H; subst hs w'. eexists [_]. simpl.
        split; [reflexivity|]. split; [lia|]. split; [reflexivity|].
        split; [lia|]. intros init l Hl.
        destruct init as [|a [|b init]]; try discriminate.
        inversion Hl; subst l. simpl. auto.
      * pose proof (ProbeFacts.probe_loop_ok _ _ _ _ _ _ _ _ H)
          as (new0 & E0 & _ & _ & Hne0).
        apply IH in H as (new & -> & Hlen & Hw & Hc & Hlast).
        apply app_inv_head in E0. subst new0.
        eexists (_ :: new). rewrite <- app_assoc. simpl.
        split; [reflexivity|]. split; [lia|].
        split; [rewrite Hw; simpl; now rewrite <- app_assoc|].
        split; [rewrite Hc; simpl; lia|].
        intros init l Hl. destruct init as [|a init].
        -- inversion Hl; subst. split; [constructor|]. simpl. intros Hlt.
           exfalso. apply Hne0; [lia | reflexivity].
        -- inversion Hl; subst a new.
           destruct (Hlast init l eq_refl) as [Hinit Hl'].
           split; [constructor; [left; exact Hne | exact Hinit]|].
           intros Hlt. apply Hl'. simpl in Hlt. lia.
    + pose proof (ProbeFacts.probe_loop_ok _ _ _ _ _ _ _ _ H)
        as (new0 & E0 & _ & _ & Hne0).
      apply IH in H as (new & -> & Hlen & Hw & Hc & Hlast).
      apply app_inv_head in E0. subst new0.
      eexists (_ :: new). rewrite <- app_assoc. simpl.
      split; [reflexivity|]. split; [lia|].
      split; [rewrite Hw; simpl; now rewrite <- app_assoc|].
      split; [rewrite Hc; simpl; lia|].
      intros init l Hl. destruct init as [|a init].
      -- inversion Hl; subst. split; [constructor|]. simpl. intros Hlt.
         exfalso. apply Hne0; [lia | reflexivity].
      -- inversion Hl; subst a new.
         destruct (Hlast init l eq_refl) as [Hinit Hl'].
         split; [constructor; [right; reflexivity | exact Hinit]|].
         intros Hlt. apply Hl'. simpl in Hlt. lia.
Qed.

(** With a clock that does not run backwards, the latency of a record added
    is the sentinel or is not negative. *)
Lemma probe_loop_latency n : forall t hops w hs w',
  (forall k, (time_at E k <= time_at E (S k))%Q) ->
  Forall (fun h => latency h = (-1)%Q \/ (0 <= latency h)%Q) hops ->
  probe_loop E self n t hops w = (Ok hs, w') ->
  Forall (fun h => latency h = (-1)%Q \/ (0 <= latency h)%Q) hs.
Proof.
  induction n as [|n IH]; intros t hops w hs w' Hclock Hhops H.
  - simpl in H. now inversion H; subst.
  - rewrite ProbeFacts.probe_loop_S in H. cbv zeta in H.
    destruct (answer E (conf_iface w) (mkProbe (target_host self) t) 2) as [[reply|]|e];
      [| |discriminate].
    + assert (Hnew : Forall (fun h => latency h = (-1)%Q \/ (0 <= latency h)%Q)
               (hops ++ [mkHop t (reply_addr reply)
                  (Qred ((time_at E (S (clock_reads w))
                          - time_at E (clock_reads w)) * 1000))])).
      { apply Forall_app. split; [assumption|]. constructor; [|constructor].
        right. cbn [latency]. rewrite Qred_correct.
        apply Qmult_le_0_compat; [|discriminate].
        specialize (Hclock (clock_reads w)).
        unfold Qminus. rewrite <- (Qplus_opp_r (time_at E (clock_reads w))).
        apply Qplus_le_compat; [exact Hclock | apply Qle_refl]. }
      destruct (String.eqb (reply_addr reply) (target_host self)).
      * now inversion H; subst.
      * eapply IH; eassumption.
    + eapply IH; [exact Hclock| |exact H].
      apply Forall_app. split; [assumption|]. constructor; [|constructor].
      left. reflexivity.
Qed.

End Loop.

Lemma same_path_refl r : same_path r r.
Proof. destruct r; simpl; auto. Qed.

(** The hop numbers and the addresses a loop returns, and the exception it
    raises, are the same under two clocks and from two worlds with the same
    [conf.iface], when the probes are answered alike. *)
Lemma probe_loop_same E1 E2 self n : forall t hops1 hops2 w1 w2,
  (forall i p timeout, answer E1 i p timeout = answer E2 i p timeout) ->
  conf_iface w1 = conf_iface w2 ->
  map hop hops1 = map hop hops2 -> map ip hops1 = map ip hops2 ->
  same_path (fst (probe_loop E1 self n t hops1 w1))
            (fst (probe_loop E2 self n t hops2 w2)).
Proof.
  induction n as [|n IH]; intros t hops1 hops2 w1 w2 Ha Hc Hh Hi.
  - simpl. auto.
  - rewrite !ProbeFacts.probe_loop_S. cbv zeta.
    rewrite <- Hc, <- Ha.
    destruct (answer E1 (conf_iface w1) (mkProbe (target_host self) t) 2)
      as [[reply|]|e].
    + destruct (String.eqb (reply_addr reply) (target_host self)).
      * simpl. rewrite !map_app, Hh, Hi. auto.
      * apply IH; [exact Ha | reflexivity | |];
          rewrite !map_app; simpl; congruence.
    + apply IH; [exact Ha | reflexivity | |];
        rewrite !map_app; simpl; congruence.
    + simpl. reflexivity.
Qed.

End ProbeMore.

(* ================================================================== *)
(** ** More on the parser *)

Module ParserMore.
Import StrFacts PatternFacts ScanFacts TraceFacts.

(** A property of all the characters of a text passes to what the text
    primitives cut out of it. *)
Section Characters.
Variable P : ascii -> bool.

Lemma lstrip_all s :
  Py.forallb_str P s = true -> Py.forallb_str P (Py.lstrip s) = true.
Proof.
  induction s as [|c s IH]; simpl; [auto|]. intros H.
  destruct (Py.isspace c); [|exact H].
  apply andb_prop in H as [_ H]. now apply IH.
Qed.

Lemma rstrip_all s :
  Py.forallb_str P s = true -> Py.forallb_str P (Py.rstrip s) = true.
Proof.
  induction s as [|c s IH]; simpl; [auto|]. intros H.
  apply andb_prop in H as [Hc H].
  destruct (Py.is_empty (Py.rstrip s) && Py.isspace c); [reflexivity|].
  simpl. rewrite Hc. now apply IH.
Qed.

Lemma strip_all s :
  Py.forallb_str P s = true -> Py.forallb_str P (Py.strip s) = true.
Proof. intros H. unfold Py.strip. now apply rstrip_all, lstrip_all. Qed.

Lemma split_go_all s : forall cur,
  Py.forallb_str P s = true ->
  (forall t, cur = Some t -> Py.forallb_str P t = true) ->
  Forall (fun t => Py.forallb_str P t = true) (Py.split_go cur s).
Proof.
  induction s as [|c s IH]; simpl; intros cur Hs Hcur.
  - destruct cur as [t|]; [|constructor].
    constructor; [now apply Hcur | constructor].
  - apply andb_prop in Hs as [Hc Hs].
    destruct (Py.isspace c).
    + destruct cur as [t|].
      * constructor; [now apply Hcur|]. apply IH; [exact Hs|discriminate].
      * apply IH; [exact Hs|discriminate].
    + destruct cur as [t|]; apply IH; try exact Hs; intros t' Ht';
        inversion Ht'; subst.
      * rewrite forallb_str_app. simpl. rewrite (Hcur t eq_refl), Hc.
        reflexivity.
      * simpl. now rewrite Hc.
Qed.

Lemma splitlines_go_all_two s :
  (forall cur,
      Py.forallb_str P s = true -> Py.forallb_str P cur = true ->
      Forall (fun t => Py.forallb_str P t = true) (Py.splitlines_go cur s))
  /\ (forall c cur,
         Py.forallb_str P (String c s) = true ->
         Py.forallb_str P cur = true ->
         Forall (fun t => Py.forallb_str P t = true)
                (Py.splitlines_go cur (String c s))).
Proof.
  induction s as [|c0 s [IH1 IH2]].
  - split.
    + intros cur _ Hcur. simpl. destruct (Py.is_empty cur); repeat constructor.
      exact Hcur.
    + intros c cur Hs Hcur. simpl in *. rewrite andb_true_r in Hs.
      destruct (Py.islinebreak c); simpl.
      * repeat constructor. exact Hcur.
      * destruct (Py.is_empty _) eqn:He; repeat constructor.
        rewrite forallb_str_app. simpl. now rewrite Hcur, Hs.
  - split; [intros cur; apply IH2|].
    intros c cur Hs Hcur. cbn [Py.splitlines_go].
    cbn [Py.forallb_str] in Hs. apply andb_prop in Hs as [Hc Hs].
    destruct (Py.islinebreak c).
    + constructor; [exact Hcur|].
      destruct ((Py.ord c =? 13) && (Py.ord c0 =? 10))%N.
      * apply IH1; [|reflexivity].
        cbn [Py.forallb_str] in Hs. now apply andb_prop in Hs as [_ Hs].
      * now apply IH2.
    + apply IH2; [exact Hs|].
      rewrite forallb_str_app. simpl. now rewrite Hcur, Hc.
Qed.

Lemma splitlines_all s :
  Py.forallb_str P s = true ->
  Forall (fun t => Py.forallb_str P t = true) (Py.splitlines s).
Proof.
  intros H. unfold Py.splitlines.
  now apply (proj1 (splitlines_go_all_two s)).
Qed.

End Characters.

(** A token without a digit is not a hop number. *)
Lemma no_digit_token p0 :
  Py.forallb_str no_digit p0 = true -> Py.str_isdigit p0 = false.
Proof.
  unfold Py.str_isdigit, no_digit. destruct p0 as [|c p0]; [reflexivity|].
  simpl. intros H. apply andb_prop in H as [Hc _].
  apply negb_true_iff in Hc. now rewrite Hc.
Qed.

(** A line without a digit is passed over. *)
Lemma hop_of_line_no_digit line :
  Py.forallb_str no_digit line = true -> hop_of_line line = Skip.
Proof.
  intros H. unfold hop_of_line.
  destruct (Py.is_empty (Py.strip line)); [reflexivity|].
  destruct (_ || _); [reflexivity|].
  pose proof (split_go_all no_digit (Py.strip line) None
                (strip_all no_digit line H)) as Hall.
  unfold Py.split.
  destruct (Py.split_go None (Py.strip line)) as [|p0 rest]; [reflexivity|].
  assert (Hp0 : Py.forallb_str no_digit p0 = true).
  { assert (Hf : Forall (fun t => Py.forallb_str no_digit t = true)
                        (p0 :: rest)) by (apply Hall; discriminate).
    now inversion Hf. }
  now rewrite (no_digit_token p0 Hp0).
Qed.

Lemma scan_all_skipped target out : forall hops,
  Forall (fun line => hop_of_line line = Skip) out ->
  scan target out hops = Ok hops.
Proof.
  induction out as [|line rest IH]; intros hops H; simpl; [reflexivity|].
  inversion H; subst.
  match goal with Hs : hop_of_line line = Skip |- _ => rewrite Hs end.
  now apply IH.
Qed.

(** The first token of a text starts with the token being read. *)
Lemma split_go_prefix s : forall t p0 rest,
  Py.split_go (Some t) s = p0 :: rest -> exists u, p0 = (t ++ u)%string.
Proof.
  induction s as [|c s IH]; simpl; intros t p0 rest H.
  - inversion H; subst. exists "". now rewrite str_app_nil_r.
  - destruct (Py.isspace c).
    + inversion H; subst. exists "". now rewrite str_app_nil_r.
    + apply IH in H as (u & ->). exists (String c u).
      now rewrite str_app_assoc.
Qed.

(** When a text starts with a character that is not white space, its first
    token starts with that character. *)
Lemma split_first_char c s p0 rest :
  Py.split (String c s) = p0 :: rest -> Py.isspace c = false ->
  exists u, p0 = String c u.
Proof.
  unfold Py.split. simpl. intros H Hc. rewrite Hc in H.
  apply split_go_prefix in H as (u & ->). now exists u.
Qed.

Lemma lower_char_o c :
  Py.lower_char c = "o"%char -> Py.isspace c = false /\ Py.isdigit c = false.
Proof.
  destruct c as [[] [] [] [] [] [] [] []]; vm_compute; intros H;
    first [discriminate H | split; reflexivity].
Qed.

(** A line whose first token is a hop number is no header line. *)
Lemma digit_line_not_header line p0 rest :
  Py.split line = p0 :: rest -> Py.str_isdigit p0 = true ->
  Py.startswith line "Tracing route"
  || Py.startswith (Py.lower line) "over a maximum" = false.
Proof.
  intros Hsplit Hdigit.
  destruct line as [|c s]; [reflexivity|].
  assert (Hfirst : Py.isspace c = false -> Py.isdigit c = true).
  { intros Hc. destruct (split_first_char c s p0 rest Hsplit Hc) as (u & ->).
    unfold Py.str_isdigit in Hdigit. simpl in Hdigit.
    now apply andb_prop in Hdigit as [Hd _]. }
  apply orb_false_iff. split.
  - unfold Py.startswith. cbn [String.prefix].
    destruct (ascii_dec "T" c) as [<-|_]; [|reflexivity].
    specialize (Hfirst eq_refl). discriminate Hfirst.
  - unfold Py.startswith. cbn [Py.lower String.prefix].
    destruct (ascii_dec "o" (Py.lower_char c)) as [Ho|_]; [|reflexivity].
    symmetry in Ho. apply lower_char_o in Ho as [Hs Hd].
    rewrite (Hfirst Hs) in Hd. discriminate Hd.
Qed.

Lemma int_go_not_decimal s : forall acc,
  Py.forallb_str Py.isdecimal s = false -> Py.int_go acc s = None.
Proof.
  induction s as [|c s IH]; intros acc H; cbn [Py.int_go Py.forallb_str] in *;
    [discriminate|].
  destruct (Py.isdecimal c); [|reflexivity]. now apply IH.
Qed.

(** A line whose first token passes [isdigit] and holds a digit that is not
    decimal makes [int] raise. *)
Lemma hop_of_line_bad line p0 rest :
  Py.split (Py.strip line) = p0 :: rest ->
  Py.str_isdigit p0 = true ->
  Py.forallb_str Py.isdecimal p0 = false ->
  hop_of_line line = Bad ValueError.
Proof.
  intros Hsplit Hdigit Hdec. unfold hop_of_line.
  destruct (Py.strip line) as [|c s] eqn:Hs; [discriminate|].
  cbn [Py.is_empty].
  rewrite (digit_line_not_header _ _ _ Hsplit Hdigit), Hsplit, Hdigit.
  simpl. unfold Py.int.
  destruct (Py.is_empty p0); [reflexivity|].
  now rewrite int_go_not_decimal.
Qed.

(** The records a scan returns are those it was given and records of
    lines. *)
Lemma scan_records_of_lines (Q : Hop -> Prop) target out : forall hops hs,
  (forall line h, hop_of_line line = Rec h -> Q h) ->
  Forall Q hops -> scan target out hops = Ok hs -> Forall Q hs.
Proof.
  induction out as [|line rest IH]; intros hops hs HQ Hhops H; simpl in H.
  - now inversion H; subst.
  - destruct (hop_of_line line) as [| e | h] eqn:Hl;
      [now apply (IH hops) | discriminate |].
    assert (Hnew : Forall Q (hops ++ [h])).
    { apply Forall_app. split; [assumption|].
      constructor; [now apply (HQ line) | constructor]. }
    destruct (String.eqb (ip h) target).
    + now inversion H; subst.
    + now apply (IH (hops ++ [h])).
Qed.

(** Only the last record a scan returns can have the target as address. *)
Lemma scan_target_last target out : forall hops hs init l,
  Forall (fun h => ip h <> target) hops ->
  scan target out hops = Ok hs -> hs = init ++ [l] ->
  Forall (fun h => ip h <> target) init.
Proof.
  induction out as [|line rest IH]; intros hops hs init l Hhops H Hl;
    simpl in H.
  - injection H as Heq. rewrite Heq, Hl in Hhops.
    now apply Forall_app in Hhops as [Hi _].
  - destruct (hop_of_line line) as [| e | h];
      [now apply (IH hops hs init l) | discriminate |].
    destruct (String.eqb_spec (ip h) target) as [Heq|Hne].
    + injection H as Heq'. rewrite Hl in Heq'.
      apply app_inj_tail in Heq' as [-> _]. exact Hhops.
    + apply (IH (hops ++ [h]) hs init l); auto.
      apply Forall_app. split; [assumption|]. now constructor.
Qed.

Lemma latency_of_not_negative rtts lat :
  Forall (fun n => (0 <= n)%Z) rtts ->
  latency_of rtts = Ok lat ->
  lat = (-1)%Q \/ (0 <= lat)%Q.
Proof.
  intros Hpos H. destruct rtts as [|n ns].
  - left. simpl in H. now inversion H.
  - right. apply latency_of_mean in H as (_ & H0 & _);
      [exact H0 | discriminate | exact Hpos].
Qed.

Lemma int_not_negative p0 n : Py.int p0 = Some n -> (0 <= n)%Z.
Proof.
  unfold Py.int. destruct (Py.is_empty p0); [discriminate|].
  apply int_go_nonneg. lia.
Qed.

(** Every record the parser builds is well formed. *)
Lemma hop_of_line_well_formed line h :
  hop_of_line line = Rec h -> well_formed h.
Proof.
  intros H. pose proof (hop_of_line_ip line h H) as Hip.
  apply hop_of_line_rec in H
    as (p0 & rest & n & rtts & lat & _ & _ & Hn & Hr & Hl & ->).
  split; [simpl; now apply (int_not_negative p0)|].
  split; [exact Hip|]. simpl.
  apply (latency_of_not_negative rtts); [|exact Hl].
  destruct (ints_numbers _ (findall_rtt_numbers (Py.strip line)))
    as (ns & Hns & Hpos & _).
  rewrite Hr in Hns. now inversion Hns; subst.
Qed.

End ParserMore.

(* ================================================================== *)
(** ** The samples of a line and their mean *)

Module SampleFacts.
Import Re StrFacts ReFacts PatternFacts TraceFacts ParserMore.

(** [int] reads a run of decimal digits as the number it writes. *)
Lemma int_go_value d : forall acc,
  Py.forallb_str Py.isdecimal d = true ->
  Py.int_go acc d
  = Some (acc * 10 ^ Z.of_nat (String.length d) + digits_value d)%Z.
Proof.
  induction d as [|c d IH]; intros acc H;
    cbn [Py.int_go Py.forallb_str digits_value String.length] in *.
  - f_equal. change (10 ^ Z.of_nat 0)%Z with 1%Z. lia.
  - apply andb_prop in H as [-> Hd]. rewrite (IH _ Hd). f_equal.
    rewrite Nat2Z.inj_succ, Z.pow_succ_r by lia. ring.
Qed.

Lemma int_value d : is_number d = true -> Py.int d = Some (digits_value d).
Proof.
  unfold is_number, Py.int. intros H. apply andb_prop in H as [Hne Hd].
  apply negb_true_iff in Hne. rewrite Hne, (int_go_value d 0 Hd).
  f_equal.
Qed.

Lemma digits_value_nonneg d :
  is_number d = true -> (0 <= digits_value d)%Z.
Proof.
  intros H. destruct (int_number d H) as (n & Hn & Hpos).
  rewrite (int_value d H) in Hn. now inversion Hn; subst.
Qed.

Lemma ints_values ds :
  Forall (fun d => is_number d = true) ds ->
  ints ds = Some (map digits_value ds).
Proof.
  induction 1 as [|d ds Hd _ IH]; simpl; [reflexivity|].
  now rewrite (int_value d Hd), IH.
Qed.

Lemma values_nonneg ds :
  Forall (fun d => is_number d = true) ds ->
  Forall (fun n => (0 <= n)%Z) (map digits_value ds).
Proof.
  induction 1 as [|d ds Hd _ IH]; simpl; constructor;
    [now apply digits_value_nonneg | exact IH].
Qed.

(** Two runs of characters of one kind that start the same text, each
    followed by a character of another kind, are the same run. *)
Lemma run_unique (P : ascii -> bool) a : forall b c ra c' rb,
  Py.forallb_str P a = true -> Py.forallb_str P b = true ->
  P c = false -> P c' = false ->
  (a ++ String c ra)%string = (b ++ String c' rb)%string ->
  a = b /\ String c ra = String c' rb.
Proof.
  induction a as [|x a IH]; intros b c ra c' rb Ha Hb Hc Hc' H.
  - destruct b as [|y b]; [auto|]. simpl in H, Hb.
    apply andb_prop in Hb as [Hy _]. inversion H; subst. congruence.
  - simpl in Ha. apply andb_prop in Ha as [Hx Ha].
    destruct b as [|y b]; simpl in H.
    + inversion H; subst. congruence.
    + simpl in Hb. apply andb_prop in Hb as [_ Hb].
      inversion H; subst.
      match goal with
      | H' : (a ++ _)%string = (b ++ _)%string |- _ =>
          destruct (IH b c ra c' rb Ha Hb Hc Hc' H') as [-> Hr]
      end.
      auto.
Qed.

(** What follows the digits of a sample starts with a character that is no
    decimal digit, and what follows its white space with one that is no
    white space. *)
Lemma after_digits ws post :
  Py.forallb_str Py.isspace ws = true ->
  exists c r, (ws ++ "ms" ++ post)%string = String c r
              /\ Py.isdecimal c = false.
Proof.
  intros H. destruct ws as [|c ws]; simpl.
  - exists "m"%char, ("s" ++ post)%string. auto.
  - exists c, (ws ++ "ms" ++ post)%string. split; [reflexivity|].
    simpl in H. apply andb_prop in H as [Hc _].
    unfold Py.isspace, Py.isdecimal, Py.between in *.
    destruct (Py.ord c) as [|p]; [discriminate|].
    repeat (apply orb_prop in Hc as [Hc|Hc]);
      try (apply N.eqb_eq in Hc; rewrite Hc; reflexivity);
      try (apply andb_prop in Hc as [H1 H2];
           apply N.leb_le in H1; apply N.leb_le in H2;
           apply andb_false_iff; left; apply N.leb_gt; lia).
Qed.

(** At most one sample starts at a place. *)
Lemma rtt_sample_unique p1 d1 post1 p2 d2 post2 :
  rtt_sample p1 d1 -> rtt_sample p2 d2 ->
  (p1 ++ post1)%string = (p2 ++ post2)%string ->
  p1 = p2 /\ d1 = d2 /\ post1 = post2.
Proof.
  intros (lt1 & ws1 & Hlt1 & Hd1 & Hws1 & ->)
         (lt2 & ws2 & Hlt2 & Hd2 & Hws2 & ->) H.
  rewrite !str_app_assoc in H.
  assert (Hfirst : forall d r, is_number d = true ->
            exists c r', (d ++ r)%string = String c r'
                         /\ Py.isdecimal c = true).
  { intros d r Hd. unfold is_number in Hd. apply andb_prop in Hd as [Hne Hd].
    destruct d as [|c d]; [discriminate|]. simpl in Hd.
    apply andb_prop in Hd as [Hc _]. exists c, (d ++ r)%string. auto. }
  assert (Hlt : lt1 = lt2).
  { destruct Hlt1 as [-> | ->], Hlt2 as [-> | ->]; try reflexivity;
      exfalso.
    - destruct (Hfirst d1 (ws1 ++ "ms" ++ post1)%string Hd1)
        as (c & r & Hc & Hdec).
      rewrite Hc in H. simpl in H. inversion H; subst. discriminate.
    - destruct (Hfirst d2 (ws2 ++ "ms" ++ post2)%string Hd2)
        as (c & r & Hc & Hdec).
      rewrite Hc in H. simpl in H. inversion H; subst. discriminate. }
  subst lt2.
  assert (H' : (d1 ++ ws1 ++ "ms" ++ post1)%string
               = (d2 ++ ws2 ++ "ms" ++ post2)%string).
  { clear -H. induction lt1 as [|c l IH]; simpl in H; [exact H|].
    inversion H. auto. }
  clear H.
  destruct (after_digits ws1 post1 Hws1) as (c1 & r1 & E1 & Hc1).
  destruct (after_digits ws2 post2 Hws2) as (c2 & r2 & E2 & Hc2).
  rewrite E1, E2 in H'.
  apply run_unique with (P := Py.isdecimal) in H' as [-> H'];
    try assumption; try now apply is_number_forallb.
  rewrite <- E1, <- E2 in H'.
  change ("ms" ++ post1)%string with (String "m" ("s" ++ post1)) in H'.
  change ("ms" ++ post2)%string with (String "m" ("s" ++ post2)) in H'.
  apply run_unique with (P := Py.isspace) in H' as [-> H'];
    try assumption; try reflexivity.
  inversion H'; subst. auto.
Qed.

Lemma app_inv_length (a b c d : string) :
  (a ++ b)%string = (c ++ d)%string -> String.length a = String.length c ->
  a = c /\ b = d.
Proof.
  revert c. induction a as [|x a IH]; intros [|y c] H L; simpl in *;
    try discriminate; [auto|].
  inversion H; subst. destruct (IH c) as [-> ->]; auto.
Qed.

(** A line has one list of samples. *)
Lemma samples_unique line ds1 :
  samples line ds1 -> forall ds2, samples line ds2 -> ds1 = ds2.
Proof.
  induction 1 as [line Hnone | pre p post d ds Hs Hleft _ IH];
    intros ds2 H2.
  - inversion H2 as [| pre' p' post' d' ds' Hs' _ _ Hline]; [reflexivity|].
    exfalso. apply (Hnone pre' p' post' d'); [|exact Hs'].
    unfold occurs. now rewrite Hline.
  - inversion H2 as [line' Hnone' | pre' p' post' d' ds' Hs' Hleft' Hrest' Hline].
    + exfalso. apply (Hnone' pre p post d); [reflexivity | exact Hs].
    + assert (L1 : (String.length pre <= String.length pre')%nat).
      { apply (Hleft pre' p' post' d'); [|exact Hs'].
        unfold occurs. now rewrite Hline. }
      assert (L2 : (String.length pre' <= String.length pre)%nat).
      { apply (Hleft' pre p post d); [|exact Hs].
        unfold occurs. now rewrite Hline. }
      apply app_inv_length in Hline as [-> Hline]; [|lia].
      destruct (rtt_sample_unique _ _ _ _ _ _ Hs' Hs Hline)
        as (-> & -> & ->).
      f_equal. now apply IH.
Qed.

(** Passing over the characters of a match. *)
Lemma findall_go_skip r q : forall rest,
  findall_go r (q ++ rest) (String.length q) = findall_go r rest 0.
Proof.
  induction q as [|c q IH]; intros rest; [reflexivity|].
  simpl. apply IH.
Qed.

Lemma rtt_sample_not_empty p d : rtt_sample p d -> p <> "".
Proof.
  intros (lt & ws & _ & _ & _ & ->) H.
  apply (f_equal String.length) in H.
  rewrite !str_length_app in H. simpl in H. lia.
Qed.

(** A text in which no sample starts at the first place has the samples of
    what follows its first character. *)
Lemma samples_shift c s ds :
  samples s ds ->
  (forall p post d, String c s = (p ++ post)%string -> ~ rtt_sample p d) ->
  samples (String c s) ds.
Proof.
  intros H Hstart. destruct H as [line Hnone | pre p post d ds Hs Hleft Hrest].
  - apply samples_nil. intros pre p post d Ho Hs. unfold occurs in Ho.
    destruct pre as [|x pre]; simpl in Ho.
    + now apply (Hstart p post d).
    + inversion Ho; subst. now apply (Hnone pre p post d).
  - change (String c (pre ++ p ++ post))
      with (String c pre ++ p ++ post)%string.
    apply samples_cons; [exact Hs | | exact Hrest].
    intros pre1 p1 post1 d1 Ho Hs1. unfold occurs in Ho.
    destruct pre1 as [|x pre1]; simpl in Ho.
    + exfalso. now apply (Hstart p1 post1 d1).
    + inversion Ho as [[Hx Ho']]. simpl.
      apply le_n_S. now apply (Hleft pre1 p1 post1 d1).
Qed.

(** [findall] returns the numbers of the samples of the line. *)
Lemma findall_go_samples n : forall s,
  (String.length s <= n)%nat -> samples s (findall_go rtt_re s 0).
Proof.
  induction n as [|n IH]; intros s Hn.
  - destruct s as [|c s]; [|simpl in Hn; lia].
    apply samples_nil. intros pre p post d Ho Hs.
    apply rtt_sample_not_empty in Hs. unfold occurs in Ho.
    destruct pre; [destruct p; [congruence|discriminate]|discriminate].
  - destruct s as [|c s].
    + apply samples_nil. intros pre p post d Ho Hs.
      apply rtt_sample_not_empty in Hs. unfold occurs in Ho.
      destruct pre; [destruct p; [congruence|discriminate]|discriminate].
    + cbn [findall_go].
      destruct (match_at rtt_re (String c s)) as [[g rest]|] eqn:Hm.
      * apply match_at_sound in Hm as (p & go & Hp & M & ->).
        apply rtt_re_matches in M as (d & -> & Hs). cbn [group_text].
        pose proof (rtt_sample_not_empty p d Hs) as Hne.
        destruct p as [|x p]; [congruence|].
        simpl in Hp. inversion Hp as [[Hx Hs']].
        replace (String.length (String x (p ++ rest)) - String.length rest
                 - 1)%nat with (String.length p)
          by (cbn [String.length]; rewrite str_length_app; lia).
        rewrite findall_go_skip.
        change (String x (p ++ rest))
          with ("" ++ String x p ++ rest)%string.
        apply samples_cons; [exact Hs | intros; simpl; lia |].
        apply IH. simpl in Hn. subst s. rewrite str_length_app in Hn. lia.
      * apply samples_shift; [apply IH; simpl in Hn; lia|].
        intros p post d Hp Hs.
        apply rtt_sample_matches in Hs.
        apply (match_at_complete rtt_re p (Some d) post) in Hs.
        rewrite <- Hp in Hs. contradiction.
Qed.

Lemma findall_samples line : samples line (findall rtt_re line).
Proof. apply (findall_go_samples (String.length line)). lia. Qed.

(** What the parser makes of a data line: a record with the latency of
    the numbers of its samples, or the exception of the division. *)
Lemma hop_of_line_data line0 p0 rest n :
  Py.split (Py.strip line0) = p0 :: rest ->
  Py.str_isdigit p0 = true -> Py.int p0 = Some n ->
  hop_of_line line0
  = match latency_of (map digits_value
                          (findall rtt_re (Py.strip line0))) with
    | Raise e => Bad e
    | Ok lat => Rec (mkHop n (ip_of (Py.strip line0)) lat)
    end.
Proof.
  intros Hsplit Hd Hn. unfold hop_of_line.
  destruct (Py.is_empty (Py.strip line0)) eqn:He.
  - apply is_empty_true in He. rewrite He in Hsplit. discriminate.
  - rewrite (digit_line_not_header _ _ _ Hsplit Hd), Hsplit, Hd. simpl.
    rewrite Hn, (ints_values _ (findall_rtt_numbers (Py.strip line0))).
    reflexivity.
Qed.

End SampleFacts.

(** C5, as stated, fails.  The latency is the quotient of two integers as
    the interpreter divides them, a double: on a line with the samples 1, 1
    and 2 it is the double nearest to 4/3, which is not 4/3; and on a data
    line whose sample has 400 digits the division raises [OverflowError],
    so that no latency is set at all. *)
Lemma latency_not_the_mean :
  hop_of_line Sample.line_thirds
  = Rec (mkHop 1 "10.0.0.1" Sample.lat_thirds)
  /\ (mean [1; 1; 2]%Z == 4 # 3)%Q
  /\ ~ (Sample.lat_thirds == 4 # 3)%Q
  /\ hop_of_line Sample.line_huge = Bad OverflowError.
Proof.
  split; [vm_compute; reflexivity|].
  split; [reflexivity|].
  split; [intros H; vm_compute in H; discriminate|].
  vm_compute. reflexivity.
Qed.

(** C5 (amended).  Take a data line: stripped, its first token passes
    [isdigit] and [int] reads it as [n]; the first token and the numbers of
    the samples have no more digits than the interpreter lets [int] read.
    Its samples are the texts made of an optional [<], decimal digits,
    optional white space and [ms], taken from left to right, each the first
    that starts after the end of the one before; [findall] returns their
    numbers, and no other list is the list of the samples.  Without a sample
    the line yields the record with the latency -1.  With samples whose mean
    is below [2^1024 - 2^970], it yields the record whose latency is a
    double as near to the mean of the values of the numbers as any double
    is, and the mean itself when the mean is a double.  With samples whose
    mean is [2^1024 - 2^970] or more, the division raises [OverflowError]
    and the line yields no record.  On the line
    "1  3 ms  2 ms  4 ms  192.168.1.1" the record is hop 1, address
    192.168.1.1, latency 3. *)
Theorem latency_is_rounded_mean line0 p0 rest n
  (Hsplit : Py.split (Py.strip line0) = p0 :: rest)
  (Hdigit : Py.str_isdigit p0 = true)
  (Hint : Py.int p0 = Some n)
  (Hshort : short_numbers (Py.strip line0) = true) :
  let line := Py.strip line0 in
  let ds := Re.findall rtt_re line in
  let rtts := map digits_value ds in
  let limit := (2 ^ 1024 - 2 ^ 970)%Q in
  samples line ds
  /\ (forall ds', samples line ds' -> ds' = ds)
  /\ (ds = [] -> hop_of_line line0 = Rec (mkHop n (ip_of line) (-1)))
  /\ (ds <> [] -> (mean rtts < limit)%Q ->
      exists lat,
        hop_of_line line0 = Rec (mkHop n (ip_of line) lat)
        /\ Float.is_double lat
        /\ (forall y, Float.is_double y ->
                      (Qabs (lat - mean rtts) <= Qabs (y - mean rtts))%Q)
        /\ (Float.is_double (mean rtts) -> (lat == mean rtts)%Q))
  /\ (ds <> [] -> (limit <= mean rtts)%Q ->
      hop_of_line line0 = Bad OverflowError)
  /\ hop_of_line Sample.line_1 = Rec (mkHop 1 "192.168.1.1" 3).
Proof.
  intros line ds rtts limit.
  pose proof (SampleFacts.hop_of_line_data line0 p0 rest n Hsplit Hdigit Hint)
    as Hline.
  change (hop_of_line line0
          = match latency_of rtts with
            | Raise e => Bad e
            | Ok lat => Rec (mkHop n (ip_of line) lat)
            end) in Hline.
  assert (Hpos : Forall (fun z => (0 <= z)%Z) rtts)
    by apply SampleFacts.values_nonneg, findall_rtt_numbers.
  assert (Hne : ds <> [] -> rtts <> []).
  { intros H E. apply H. now apply map_eq_nil in E. }
  split; [apply SampleFacts.findall_samples|].
  split.
  { intros ds' H. symmetry.
    exact (SampleFacts.samples_unique line ds
             (SampleFacts.findall_samples line) ds' H). }
  split.
  { intros Hnil. rewrite Hline. subst rtts. rewrite Hnil. reflexivity. }
  split; [|split; [|vm_compute; reflexivity]].
  - intros Hds Hlt.
    rewrite (latency_of_nearest rtts (Hne Hds) Hpos) in Hline.
    destruct (Float.nearest (mean rtts)) as [lat|] eqn:Hn.
    + exists lat. split; [exact Hline|].
      destruct (FloatFacts.nearest_correct _ _ (mean_nonneg rtts Hpos) Hn)
        as (_ & Hd & Hnear).
      split; [exact Hd|]. split; [exact Hnear|].
      now apply FloatFacts.nearest_exact; [apply mean_nonneg|].
    + exfalso.
      apply (FloatFacts.nearest_overflow _ (mean_nonneg rtts Hpos)) in Hn.
      apply (Qlt_not_le _ _ Hlt). exact Hn.
  - intros Hds Hge.
    rewrite (latency_of_nearest rtts (Hne Hds) Hpos) in Hline.
    apply (FloatFacts.nearest_overflow _ (mean_nonneg rtts Hpos)) in Hge.
    now rewrite Hge in Hline.
Qed.

Lemma latency_is_rounded_mean_witness :
  short_numbers (Py.strip Sample.line_1) = true
  /\ samples (Py.strip Sample.line_1) ["3"; "2"; "4"]
  /\ exists lat,
       hop_of_line Sample.line_1 = Rec (mkHop 1 "192.168.1.1" lat)
       /\ (lat == 3)%Q.
Proof.
  assert (Hshort : short_numbers (Py.strip Sample.line_1) = true)
    by (vm_compute; reflexivity).
  assert (Hsplit : Py.split (Py.strip Sample.line_1)
                   = ["1"; "3"; "ms"; "2"; "ms"; "4"; "ms"; "192.168.1.1"])
    by (vm_compute; reflexivity).
  assert (Hds : Re.findall rtt_re (Py.strip Sample.line_1) = ["3"; "2"; "4"])
    by (vm_compute; reflexivity).
  assert (Hip : ip_of (Py.strip Sample.line_1) = "192.168.1.1")
    by (vm_compute; reflexivity).
  destruct (latency_is_rounded_mean Sample.line_1 "1"
              ["3"; "ms"; "2"; "ms"; "4"; "ms"; "192.168.1.1"] 1
              Hsplit eq_refl eq_refl Hshort)
    as (Hs & _ & _ & Hmean & _).
  rewrite Hds in Hs, Hmean. rewrite Hip in Hmean.
  split; [exact Hshort|]. split; [exact Hs|].
  destruct Hmean as (lat & Hlat & _ & _ & Hexact).
  - discriminate.
  - vm_compute. reflexivity.
  - exists lat. split; [exact Hlat|].
    rewrite Hexact; [reflexivity|].
    exists 3%Z, 0%Z. split; [lia|]. split; [lia|]. reflexivity.
Defined.

(* ================================================================== *)
(** ** The labels of the hops *)

Module SkyJetFacts.
Import SkyJet.

Local Open Scope Z_scope.


Lemma lowest_ge r l :
  In r l -> Z.max (rect_y r) (rect_y r + rect_h r) <= lowest l.
Proof.
  induction l as [|r' l IH]; simpl; [contradiction|].
  intros [->|H]; [lia|]. specialize (IH H). lia.
Qed.

(** A rectangle that collides with one of the list has its upper edge above
    the lowest edge of the list. *)
Lemma collide_above_lowest rect l :
  existsb (colliderect rect) l = true ->
  Z.min (rect_y rect) (rect_y rect + rect_h rect) < lowest l.
Proof.
  intros H. apply existsb_exists in H as (r & Hin & Hc).
  apply lowest_ge in Hin. unfold colliderect in Hc.
  destruct (_ || _); [discriminate|].
  apply andb_prop in Hc as [Hc _]. apply andb_prop in Hc as [Hc _].
  apply andb_prop in Hc as [_ Hc]. apply Z.ltb_lt in Hc. lia.
Qed.

Lemma moved_moved rect a b : moved (moved rect a) b = moved rect b.
Proof. reflexivity. Qed.

Lemma moved_same rect : moved rect (rect_y rect) = rect.
Proof. now destruct rect. Qed.

(** With a step that is positive, the loop of [draw_hop] ends within
    [enough] rounds, at the first shift where the rectangle is free. *)
Lemma avoid_ends step text_y l (Hstep : 0 < step) :
  forall fuel rect k,
    0 <= k -> rect_y rect = text_y + k * step ->
    (enough rect l <= fuel)%nat ->
    exists j,
      0 <= j
      /\ avoid fuel step text_y rect (k * step) l
         = Some (moved rect (text_y + (k + j) * step))
      /\ existsb (colliderect (moved rect (text_y + (k + j) * step))) l
         = false
      /\ forall i, 0 <= i < j ->
           existsb (colliderect (moved rect (text_y + (k + i) * step))) l
           = true.
Proof.
  induction fuel as [|fuel IH]; intros rect k Hk Hy Hfuel.
  - unfold enough in Hfuel. lia.
  - assert (Hsame : moved rect (text_y + (k + 0) * step) = rect).
    { rewrite Z.add_0_r, <- Hy. apply moved_same. }
    cbn [avoid].
    destruct (existsb (colliderect rect) l) eqn:Hc.
    + pose proof (collide_above_lowest rect l Hc) as Hlow.
      destruct (IH (moved rect (text_y + (k * step + step))) (k + 1))
        as (j & Hj & Hrun & Hfree & Hbusy).
      * lia.
      * unfold moved. cbn [rect_y]. lia.
      * unfold enough in *. unfold moved. cbn [rect_y rect_h].
        rewrite Hy in *. lia.
      * exists (j + 1). split; [lia|].
        replace ((k + 1) * step) with (k * step + step) in Hrun by lia.
        rewrite moved_moved in Hrun, Hfree.
        replace (k + (j + 1)) with (k + 1 + j) by lia.
        split; [exact Hrun|]. split; [exact Hfree|].
        intros i Hi. destruct (Z.eq_dec i 0) as [->|Hne].
        -- now rewrite Hsame.
        -- specialize (Hbusy (i - 1) ltac:(lia)).
           rewrite moved_moved in Hbusy.
           now replace (k + 1 + (i - 1)) with (k + i) in Hbusy by lia.
    + exists 0. split; [lia|]. rewrite Hsame.
      split; [reflexivity|]. split; [exact Hc|]. intros i Hi. lia.
Qed.


Lemma existsb_false_Forall rect l :
  existsb (colliderect rect) l = false ->
  Forall (fun r' => colliderect rect r' = false) l.
Proof.
  induction l as [|a l IH]; simpl; intros H; [constructor|].
  apply orb_false_iff in H as [Ha Hl]. constructor; auto.
Qed.

(** The label does not reach past ten pixels from the right border. *)
Lemma first_rect_right width F h x y :
  rect_x (first_rect width F h x y) + rect_w (first_rect width F h x y)
  <= width - 10.
Proof.
  unfold first_rect. destruct (label_size F h) as [tw th].
  destruct (width - 10 <? int_of (x + 10) + tw) eqn:Hc; simpl.
  - lia.
  - apply Z.ltb_ge in Hc. lia.
Qed.

End SkyJetFacts.

(* ================================================================== *)
(** ** Further properties of the engine *)

Import ProbeMore ParserMore SkyJetFacts.

(** X1.  When the raw-probe strategy returns, it has sent one probe for
    each record, to the target and with the hop number of the record as
    TTL, in the order of the records; it has read the clock twice for each;
    and the records are at most [max_hops]. *)
Theorem scapy_one_probe_per_record E self w hops w'
  (Hrun : _scapy_trace E self w = (Ok hops, w')) :
  (List.length hops <= Z.to_nat (max_hops self))%nat
  /\ wire w' = wire w ++ map (fun h => mkProbe (target_host self) (hop h)) hops
  /\ clock_reads w' = (clock_reads w + 2 * List.length hops)%nat.
Proof.
  rewrite scapy_trace_cases in Hrun.
  destruct (if_list E) as [[|i l]|e]; [| |discriminate];
    apply probe_loop_run in Hrun as (new & Hhs & Hlen & Hw & Hc & _);
    simpl in Hhs; subst new; auto.
Qed.

Lemma scapy_one_probe_per_record_witness :
  _scapy_trace Sample.linux Sample.prober Sample.w0
  = (Ok Sample.three_hops, Sample.w_probed)
  /\ wire Sample.w_probed
     = wire Sample.w0
       ++ map (fun h => mkProbe "10.0.0.9" (hop h)) Sample.three_hops.
Proof.
  assert (Hrun : _scapy_trace Sample.linux Sample.prober Sample.w0
                 = (Ok Sample.three_hops, Sample.w_probed))
    by (vm_compute; reflexivity).
  split; [exact Hrun|].
  exact (proj1 (proj2 (scapy_one_probe_per_record Sample.linux Sample.prober
                         Sample.w0 Sample.three_hops Sample.w_probed Hrun))).
Defined.

(** X2.  The raw-probe strategy stops at the target and nowhere else: every
    record before the last stands for a probe without answer or has an
    address other than the target, and when fewer than [max_hops] records
    are returned, the address of the last one is the target. *)
Theorem scapy_stops_at_target E self w hops w' init l
  (Hrun : _scapy_trace E self w = (Ok hops, w'))
  (Hlast : hops = init ++ [l]) :
  Forall (fun h => ip h <> target_host self \/ timed_out h) init
  /\ ((List.length hops < Z.to_nat (max_hops self))%nat ->
      ip l = target_host self).
Proof.
  rewrite scapy_trace_cases in Hrun.
  destruct (if_list E) as [[|i li]|e]; [| |discriminate];
    apply probe_loop_run in Hrun as (new & Hhs & _ & _ & _ & Hnew);
    simpl in Hhs; subst new; now apply Hnew.
Qed.

Lemma scapy_stops_at_target_witness :
  _scapy_trace Sample.linux Sample.prober Sample.w0
  = (Ok Sample.three_hops, Sample.w_probed)
  /\ Forall (fun h => ip h <> "10.0.0.9" \/ timed_out h)
            [mkHop 1 "*" (-1); mkHop 2 "*" (-1)]
  /\ ip (mkHop 3 "10.0.0.9" 1) = "10.0.0.9".
Proof.
  assert (Hrun : _scapy_trace Sample.linux Sample.prober Sample.w0
                 = (Ok Sample.three_hops, Sample.w_probed))
    by (vm_compute; reflexivity).
  split; [exact Hrun|].
  destruct (scapy_stops_at_target Sample.linux Sample.prober Sample.w0
              Sample.three_hops Sample.w_probed
              [mkHop 1 "*" (-1); mkHop 2 "*" (-1)] (mkHop 3 "10.0.0.9" 1)
              Hrun eq_refl) as [Hinit Hl].
  split; [exact Hinit|]. apply Hl. vm_compute. lia.
Defined.

(** X3.  With [max_hops] at most 0 and an interface list that can be read,
    the raw-probe strategy returns the empty list at once: no probe is
    sent and the clock is not read. *)
Theorem scapy_nothing_to_probe E self w l
  (Hhops : (max_hops self <= 0)%Z)
  (Hlist : if_list E = Ok l) :
  fst (_scapy_trace E self w) = Ok []
  /\ wire (snd (_scapy_trace E self w)) = wire w
  /\ clock_reads (snd (_scapy_trace E self w)) = clock_reads w.
Proof.
  rewrite scapy_trace_cases, Hlist.
  replace (Z.to_nat (max_hops self)) with O by lia.
  destruct l; simpl; auto.
Qed.

Lemma scapy_nothing_to_probe_witness :
  fst (_scapy_trace Sample.linux (mkTracer "10.0.0.9" 0 "scapy") Sample.w0)
  = Ok [].
Proof.
  apply (scapy_nothing_to_probe Sample.linux (mkTracer "10.0.0.9" 0 "scapy")
           Sample.w0 ["lo"]); [vm_compute; discriminate | reflexivity].
Defined.

(** X4.  With a clock that does not run backwards, every record of the
    raw-probe strategy has a latency that is the sentinel or is not
    negative. *)
Theorem scapy_latency_not_negative E self w hops w'
  (Hclock : forall k, (time_at E k <= time_at E (S k))%Q)
  (Hrun : _scapy_trace E self w = (Ok hops, w')) :
  Forall (fun h => latency h = (-1)%Q \/ (0 <= latency h)%Q) hops.
Proof.
  rewrite scapy_trace_cases in Hrun.
  destruct (if_list E) as [[|i l]|e]; [| |discriminate];
    eapply probe_loop_latency; eauto.
Qed.

Lemma scapy_latency_not_negative_witness :
  _scapy_trace Sample.linux Sample.prober Sample.w0
  = (Ok Sample.three_hops, Sample.w_probed)
  /\ Forall (fun h => latency h = (-1)%Q \/ (0 <= latency h)%Q)
            Sample.three_hops.
Proof.
  assert (Hrun : _scapy_trace Sample.linux Sample.prober Sample.w0
                 = (Ok Sample.three_hops, Sample.w_probed))
    by (vm_compute; reflexivity).
  split; [exact Hrun|].
  refine (scapy_latency_not_negative Sample.linux Sample.prober Sample.w0
            Sample.three_hops Sample.w_probed _ Hrun).
  intros k. unfold Sample.linux, Sample.clock, time_at.
  unfold Qle, Qdiv, Qmult, Qinv, inject_Z. cbn [Qnum Qden]. lia.
Defined.

(** X5.  What [trace] finds depends neither on the clock nor on what was
    printed, sent and read before: on two platforms that differ in their
    clocks only, and from two worlds that agree on [conf.iface] (which
    matters only when the interface list is empty, for the probes then go
    out on [conf.iface] as it is), it returns the same hop numbers and
    addresses, or raises the same exception. *)
Theorem trace_same_path E1 E2 self w1 w2 :
  same_net E1 E2 ->
  (if_list E1 = Ok [] -> conf_iface w1 = conf_iface w2) ->
  same_path (fst (trace E1 self w1)) (fst (trace E2 self w2)).
Proof.
  intros (Hp & Hproc & Hif & Hans) Hc.
  assert (Ht : fst (_tracert_trace E2 self w2)
               = fst (_tracert_trace E1 self w1)).
  { rewrite !tracert_trace_cases. rewrite <- Hproc.
    destruct (process E1 (tracert_argv self)) as [e|d rc out].
    - destruct (is_Exception e); reflexivity.
    - destruct (Qle_bool d tracert_timeout); reflexivity. }
  assert (Hs : forall wa wb,
             conf_iface wa = conf_iface w1 -> conf_iface wb = conf_iface w2 ->
             same_path (fst (_scapy_trace E1 self wa))
                       (fst (_scapy_trace E2 self wb))).
  { intros wa wb Hwa Hwb. rewrite !scapy_trace_cases. rewrite <- Hif.
    destruct (if_list E1) as [[|i l]|e].
    - apply ProbeMore.probe_loop_same; [exact Hans | | reflexivity..].
      rewrite Hwa, Hwb. now apply Hc.
    - apply ProbeMore.probe_loop_same; [exact Hans | reflexivity..].
    - reflexivity. }
  unfold trace. rewrite <- Hp.
  destruct (String.eqb (method self) "tracert"
            && Py.startswith (sys_platform E1) "win").
  - unfold bind.
    pose proof (tracert_trace_frame E1 self w1) as F1.
    pose proof (tracert_trace_frame E2 self w2) as F2.
    destruct (_tracert_trace E1 self w1) as [[[|h hs]|e] wa];
      destruct (_tracert_trace E2 self w2) as [[[|h' hs']|e'] wb];
      simpl in Ht; try discriminate Ht; simpl.
    + apply Hs; [apply F1 | apply F2].
    + inversion Ht; subst. auto.
    + now inversion Ht.
  - destruct (String.eqb (method self) "scapy");
      [apply Hs; reflexivity|].
    rewrite Ht. apply ProbeMore.same_path_refl.
Qed.

Lemma trace_same_path_witness :
  same_net Sample.windows_no_tool Sample.windows_slow_clock
  /\ same_path
       (fst (trace Sample.windows_no_tool Sample.prober Sample.w0))
       (fst (trace Sample.windows_slow_clock Sample.prober Sample.w_probed)).
Proof.
  assert (Hnet : same_net Sample.windows_no_tool Sample.windows_slow_clock)
    by (unfold same_net; simpl; auto).
  split; [exact Hnet|].
  apply (trace_same_path Sample.windows_no_tool Sample.windows_slow_clock
           Sample.prober Sample.w0 Sample.w_probed Hnet).
  simpl. discriminate.
Defined.

(** X6.  On a platform whose name does not start with "win", [trace] with
    a method other than "scapy" is the external-tool strategy alone: it sends
    no probe and does not write [conf.iface]. *)
Theorem trace_off_windows_sends_nothing E self w
  (Hplatform : Py.startswith (sys_platform E) "win" = false)
  (Hmethod : method self <> "scapy") :
  trace E self w = _tracert_trace E self w
  /\ wire (snd (trace E self w)) = wire w
  /\ conf_iface (snd (trace E self w)) = conf_iface w.
Proof.
  assert (Ht : trace E self w = _tracert_trace E self w).
  { unfold trace. rewrite Hplatform, andb_false_r.
    apply String.eqb_neq in Hmethod. now rewrite Hmethod. }
  rewrite Ht. split; [reflexivity|].
  destruct (tracert_trace_frame E self w) as [Hc Hw]. auto.
Qed.

Lemma trace_off_windows_sends_nothing_witness :
  wire (snd (trace Sample.linux (init "10.0.0.9") Sample.w0)) = wire Sample.w0.
Proof.
  apply (trace_off_windows_sends_nothing Sample.linux (init "10.0.0.9")
           Sample.w0); [reflexivity | discriminate].
Defined.

(** X7.  In what the parser returns only the last record can have the
    target as its address. *)
Theorem parser_target_only_last target text hs init l
  (Hparse : parse target text = Ok hs)
  (Hlast : hs = init ++ [l]) :
  Forall (fun h => ip h <> target) init.
Proof.
  unfold parse in Hparse.
  now apply (scan_target_last target (Py.splitlines text) [] hs init l).
Qed.

Lemma parser_target_only_last_witness :
  parse "10.0.0.2" Sample.tracert_output
  = Ok ([mkHop 1 "10.0.0.1" 1] ++ [mkHop 2 "10.0.0.2" Sample.lat_2])
  /\ Forall (fun h => ip h <> "10.0.0.2") [mkHop 1 "10.0.0.1" 1].
Proof.
  assert (Hp : parse "10.0.0.2" Sample.tracert_output
               = Ok ([mkHop 1 "10.0.0.1" 1] ++ [mkHop 2 "10.0.0.2" Sample.lat_2]))
    by (vm_compute; reflexivity).
  split; [exact Hp|].
  exact (parser_target_only_last "10.0.0.2" Sample.tracert_output _
           [mkHop 1 "10.0.0.1" 1] (mkHop 2 "10.0.0.2" Sample.lat_2) Hp eq_refl).
Defined.

(** X8.  Every record the parser returns is well formed: its hop number is
    not negative, its address is a dotted quad or the sentinel, and its
    latency is the sentinel or is not negative. *)
Theorem parser_records_well_formed target text hs
  (Hparse : parse target text = Ok hs) :
  Forall well_formed hs.
Proof.
  unfold parse in Hparse.
  apply (scan_records_of_lines well_formed target (Py.splitlines text) [] hs);
    [exact hop_of_line_well_formed | constructor | exact Hparse].
Qed.

Lemma parser_records_well_formed_witness :
  Forall well_formed
         [mkHop 1 "10.0.0.1" 1; mkHop 2 "10.0.0.2" Sample.lat_2;
          mkHop 3 "10.0.0.3" 6].
Proof.
  apply (parser_records_well_formed "example.org" Sample.tracert_output).
  vm_compute. reflexivity.
Defined.

(** X9.  On a text without any digit (the decimal digits and the
    superscripts one, two and three) the parser returns the empty list and
    does not raise, whatever the target. *)
Theorem parser_no_digit_no_hop target text
  (Hnone : Py.forallb_str no_digit text = true) :
  parse target text = Ok [].
Proof.
  unfold parse. apply scan_all_skipped.
  pose proof (splitlines_all no_digit text Hnone) as Hlines.
  apply Forall_forall. intros line Hin.
  rewrite Forall_forall in Hlines.
  now apply hop_of_line_no_digit, Hlines.
Qed.

Lemma parser_no_digit_no_hop_witness :
  parse "nowhere.example"
        "Unable to resolve target system name nowhere.example." = Ok [].
Proof.
  apply (parser_no_digit_no_hop "nowhere.example"
           "Unable to resolve target system name nowhere.example.").
  vm_compute. reflexivity.
Defined.

(** X10.  A line whose first token passes [isdigit] but holds a digit that
    is not decimal makes [int] raise [ValueError] outside the [try] block:
    when the subprocess ends in time and the parser reaches such a line
    without having stopped, the external-tool strategy raises [ValueError]
    and leaves the world as it was. *)
Theorem tracert_value_error_escapes E self w d rc out l1 x l2 hs p0 rest
  (Hproc : process E (tracert_argv self) = Runs d rc out)
  (Htime : (d <= tracert_timeout)%Q)
  (Hlines : Py.splitlines out = l1 ++ x :: l2)
  (Hbefore : scan (target_host self) l1 [] = Ok hs)
  (Hnot : Forall (fun h => ip h <> target_host self) hs)
  (Htoken : Py.split (Py.strip x) = p0 :: rest)
  (Hdigit : Py.str_isdigit p0 = true)
  (Hdecimal : Py.forallb_str Py.isdecimal p0 = false) :
  _tracert_trace E self w = (Raise ValueError, w).
Proof.
  rewrite tracert_trace_cases, Hproc.
  apply Qle_bool_iff in Htime. rewrite Htime.
  unfold parse. rewrite Hlines.
  rewrite (scan_app (target_host self) l1 (x :: l2) hs [] Hbefore Hnot).
  simpl. now rewrite (hop_of_line_bad x p0 rest Htoken Hdigit Hdecimal).
Qed.

Lemma tracert_value_error_escapes_witness :
  _tracert_trace (Sample.windows_tool 0 Sample.line_superscript)
                 (init "10.0.0.9") Sample.w0
  = (Raise ValueError, Sample.w0).
Proof.
  apply (tracert_value_error_escapes
           (Sample.windows_tool 0 Sample.line_superscript) (init "10.0.0.9")
           Sample.w0 1 0 Sample.line_superscript [] Sample.line_superscript
           [] [] (String "178"%char "") ["5"; "ms"; "4"; "ms"; "7"; "ms";
                                         "10.0.0.2"]).
  - reflexivity.
  - vm_compute. discriminate.
  - vm_compute. reflexivity.
  - reflexivity.
  - constructor.
  - vm_compute. reflexivity.
  - vm_compute. reflexivity.
  - vm_compute. reflexivity.
Defined.

(** X11.  The worker of the window lets no exception of class [Exception]
    out.  When neither [trace] nor [self.root.after] raises an exception of
    another class, the worker returns: if [self.root.after] does not fail,
    it hands over the hops of [trace], or the empty list when [trace]
    raised; if [self.root.after] fails, it hands over nothing. *)
Theorem worker_hands_over E after tgt w
  (Htrace : forall e, fst (trace E (init tgt) w) = Raise e ->
                      is_Exception e = true)
  (Hafter : forall e, after = Raise e -> is_Exception e = true) :
  fst (App.worker E after tgt w)
  = match after with
    | Ok _ =>
        Ok (Some match fst (trace E (init tgt) w) with
                 | Ok hops => hops
                 | Raise _ => []
                 end)
    | Raise _ => Ok None
    end.
Proof.
  unfold App.worker, bind, try_except, lift, ret, print.
  destruct (trace E (init tgt) w) as [[hops|e] w1]; simpl in *.
  - destruct after as [[]|e']; simpl; [reflexivity|].
    now rewrite (Hafter e' eq_refl).
  - rewrite (Htrace e eq_refl). simpl.
    destruct after as [[]|e']; simpl; [reflexivity|].
    now rewrite (Hafter e' eq_refl).
Qed.

Lemma worker_hands_over_witness :
  fst (App.worker Sample.windows_unprivileged (Ok tt) "10.0.0.9" Sample.w0)
  = Ok (Some []).
Proof.
  rewrite (worker_hands_over Sample.windows_unprivileged (Ok tt) "10.0.0.9"
             Sample.w0).
  - vm_compute. reflexivity.
  - intros e. vm_compute. intros H. inversion H. reflexivity.
  - intros e H. discriminate H.
Defined.

(** X12.  On a platform whose name does not start with "win" and where the
    program [tracert] cannot be started, the worker of the window always
    hands over the empty list, and no probe is sent. *)
Theorem worker_off_windows_empty E tgt w e
  (Hplatform : Py.startswith (sys_platform E) "win" = false)
  (Htool : process E (tracert_argv (init tgt)) = SpawnFails e)
  (Hclass : is_Exception e = true) :
  fst (App.worker E (Ok tt) tgt w) = Ok (Some [])
  /\ wire (snd (App.worker E (Ok tt) tgt w)) = wire w.
Proof.
  destruct (trace_off_windows_sends_nothing E (init tgt) w Hplatform)
    as (Ht & _ & _); [discriminate|].
  unfold App.worker, bind, try_except, lift, ret.
  rewrite Ht, tracert_trace_cases, Htool, Hclass. simpl. auto.
Qed.

Lemma worker_off_windows_empty_witness :
  fst (App.worker Sample.linux (Ok tt) "10.0.0.9" Sample.w0) = Ok (Some []).
Proof.
  apply (worker_off_windows_empty Sample.linux "10.0.0.9" Sample.w0
           FileNotFoundError); reflexivity.
Defined.

(* ================================================================== *)
(** ** Properties of the layout of the labels *)

Module LayoutFacts.
Import SkyJet SkyJetFacts.

Local Open Scope Z_scope.

(** Where [draw_hop] puts a label, with rounds enough for its loop. *)
Lemma draw_hop_result fuel width F h x y tp :
  0 <= get_height F ->
  (enough (first_rect width F h x y) tp <= fuel)%nat ->
  exists j,
    0 <= j
    /\ draw_hop fuel width F h x y tp
       = Some (tp ++ [moved (first_rect width F h x y)
                        (rect_y (first_rect width F h x y)
                         + j * (get_height F + 4))])
    /\ existsb (colliderect
                  (moved (first_rect width F h x y)
                     (rect_y (first_rect width F h x y)
                      + j * (get_height F + 4)))) tp = false
    /\ forall i, 0 <= i < j ->
         existsb (colliderect
                    (moved (first_rect width F h x y)
                       (rect_y (first_rect width F h x y)
                        + i * (get_height F + 4)))) tp = true.
Proof.
  intros Hfont Hfuel. unfold draw_hop.
  destruct (avoid_ends (get_height F + 4)
              (rect_y (first_rect width F h x y)) tp ltac:(lia) fuel
              (first_rect width F h x y) 0 ltac:(lia) ltac:(lia) Hfuel)
    as (j & Hj & Hrun & Hfree & Hbusy).
  simpl in Hrun. exists j. rewrite Hrun. auto.
Qed.



End LayoutFacts.

Import SkyJet LayoutFacts.

(** X13.  With a font height that is not negative and rounds enough for
    its loop, [draw_hop] appends one rectangle to [text_positions] and
    changes nothing else of the list.  The rectangle is the label's first
    rectangle moved down by a whole number of steps of the font height plus
    4: the least number for which it collides with no rectangle of the list.
    It does not reach past ten pixels from the right border. *)
Theorem draw_hop_places_label fuel width F h x y tp
  (Hfont : (0 <= get_height F)%Z)
  (Hfuel : (enough (first_rect width F h x y) tp <= fuel)%nat) :
  exists j r,
    (0 <= j)%Z
    /\ r = moved (first_rect width F h x y)
                 (rect_y (first_rect width F h x y)
                  + j * (get_height F + 4))%Z
    /\ draw_hop fuel width F h x y tp = Some (tp ++ [r])
    /\ Forall (fun r' => colliderect r r' = false) tp
    /\ (rect_x r + rect_w r <= width - 10)%Z
    /\ forall i, (0 <= i < j)%Z ->
         existsb (colliderect
                    (moved (first_rect width F h x y)
                       (rect_y (first_rect width F h x y)
                        + i * (get_height F + 4))%Z)) tp = true.
Proof.
  destruct (draw_hop_result fuel width F h x y tp Hfont Hfuel)
    as (j & Hj & Hrun & Hfree & Hbusy).
  exists j, (moved (first_rect width F h x y)
               (rect_y (first_rect width F h x y)
                + j * (get_height F + 4))%Z).
  split; [exact Hj|]. split; [reflexivity|]. split; [exact Hrun|].
  split; [now apply existsb_false_Forall|].
  split; [apply first_rect_right | exact Hbusy].
Qed.

Lemma draw_hop_places_label_witness :
  exists r,
    draw_hop 100 800 Sample.font (mkHop 1 "10.0.0.1" 1) 100 100
             [mkRect 110 90 120 35]
    = Some ([mkRect 110 90 120 35] ++ [r])
    /\ Forall (fun r' => colliderect r r' = false) [mkRect 110 90 120 35].
Proof.
  destruct (draw_hop_places_label 100 800 Sample.font (mkHop 1 "10.0.0.1" 1)
              100 100 [mkRect 110 90 120 35])
    as (j & r & _ & _ & Hrun & Hfree & _);
    [vm_compute; discriminate | vm_compute; lia |].
  exists r. split; [exact Hrun | exact Hfree].
Defined.



Module BandFacts.
Import SkyJet.

Lemma py_min_le_first l : forall a, (py_min a l <= a)%Q.
Proof.
  induction l as [|b l IH]; intros a; simpl; [apply Qle_refl|].
  destruct (Qle_bool a b) eqn:Hab; [apply IH|].
  eapply Qle_trans; [apply IH|].
  apply Qlt_le_weak, Qnot_le_lt. intros H.
  apply Qle_bool_iff in H. congruence.
Qed.

Lemma py_min_le l : forall a x, In x (a :: l) -> (py_min a l <= x)%Q.
Proof.
  induction l as [|b l IH]; intros a x Hin; simpl.
  - destruct Hin as [<-|[]]. apply Qle_refl.
  - destruct (Qle_bool a b) eqn:Hab.
    + destruct Hin as [<-|[<-|Hin]].
      * apply py_min_le_first.
      * eapply Qle_trans; [apply py_min_le_first|]. now apply Qle_bool_iff.
      * apply IH. now right.
    + destruct Hin as [<-|Hin]; [|now apply IH].
      eapply Qle_trans; [apply py_min_le_first|].
      apply Qlt_le_weak, Qnot_le_lt. intros H.
      apply Qle_bool_iff in H. congruence.
Qed.

Lemma py_max_ge_first l : forall a, (a <= py_max a l)%Q.
Proof.
  induction l as [|b l IH]; intros a; simpl; [apply Qle_refl|].
  destruct (Qle_bool b a) eqn:Hab; [apply IH|].
  eapply Qle_trans; [|apply IH].
  apply Qlt_le_weak, Qnot_le_lt. intros H.
  apply Qle_bool_iff in H. congruence.
Qed.

Lemma py_max_ge l : forall a x, In x (a :: l) -> (x <= py_max a l)%Q.
Proof.
  induction l as [|b l IH]; intros a x Hin; simpl.
  - destruct Hin as [<-|[]]. apply Qle_refl.
  - destruct (Qle_bool b a) eqn:Hab.
    + destruct Hin as [<-|[<-|Hin]].
      * apply py_max_ge_first.
      * eapply Qle_trans; [|apply py_max_ge_first]. now apply Qle_bool_iff.
      * apply IH. now right.
    + destruct Hin as [<-|Hin]; [|now apply IH].
      eapply Qle_trans; [|apply py_max_ge_first].
      apply Qlt_le_weak, Qnot_le_lt. intros H.
      apply Qle_bool_iff in H. congruence.
Qed.

(** A latency that is not negative lies between [lat_min] and [lat_max]. *)
Lemma lat_range_bounds hops h :
  In h hops -> (0 <= latency h)%Q ->
  (fst (lat_range hops) <= latency h <= snd (lat_range hops))%Q.
Proof.
  intros Hin Hpos.
  assert (Hl : In (latency h) (latencies hops)).
  { unfold latencies. apply in_map, filter_In. split; [exact Hin|].
    now apply Qle_bool_iff. }
  unfold lat_range. destruct (latencies hops) as [|a l]; [contradiction|].
  simpl. split; [now apply py_min_le | now apply py_max_ge].
Qed.

End BandFacts.

(** X15.  With a height that is not negative, the point of every hop whose
    latency is the sentinel or is not negative lies in the band between a
    tenth and nine tenths of the height: on the lower line for a timeout, on
    the upper line for the highest latency when the latencies differ.  (In
    exact arithmetic: the rounding of floating-point numbers is not
    modelled.) *)
Theorem position_in_band width height hops h
  (Hheight : (0 <= height)%Z)
  (Hin : In h hops)
  (Hlat : (latency h == -1)%Q \/ (0 <= latency h)%Q) :
  let lat_min := fst (lat_range hops) in
  let lat_max := snd (lat_range hops) in
  let y := snd (position width height (len hops) lat_min lat_max h) in
  let top := (inject_Z height * (1 # 10))%Q in
  let bottom := (inject_Z height * (9 # 10))%Q in
  (top <= y <= bottom)%Q
  /\ ((latency h == -1)%Q -> y = bottom)
  /\ (~ (latency h == -1)%Q -> (latency h == lat_max)%Q ->
      ~ (lat_max == lat_min)%Q -> (y == top)%Q).
Proof.
  intros lat_min lat_max y top bottom.
  assert (HH : (0 <= inject_Z height)%Q)
    by (unfold Qle, inject_Z; cbn [Qnum Qden]; lia).
  assert (Hband : (top <= bottom)%Q) by (unfold top, bottom; lra).
  unfold y, position. cbn [snd]. fold top bottom.
  destruct (Qeq_bool (latency h) (-1)) eqn:Hs.
  - split; [split; [exact Hband | apply Qle_refl]|].
    split; [reflexivity|].
    intros Hn. apply Qeq_bool_iff in Hs. contradiction.
  - assert (Hneq : ~ (latency h == -1)%Q)
      by (intros Heq; apply Qeq_bool_iff in Heq; congruence).
    assert (Hpos : (0 <= latency h)%Q) by (destruct Hlat; [contradiction|auto]).
    destruct (BandFacts.lat_range_bounds hops h Hin Hpos) as [Hlo Hhi].
    fold lat_min in Hlo. fold lat_max in Hhi.
    destruct (Qeq_bool lat_max lat_min) eqn:Hm.
    + split; [split; lra|]. split; [intros; contradiction|].
      intros _ _ Hd. apply Qeq_bool_iff in Hm. contradiction.
    + assert (Hd : ~ (lat_max == lat_min)%Q)
        by (intros Heq; apply Qeq_bool_iff in Heq; congruence).
      assert (Hgap : (0 < lat_max - lat_min)%Q).
      { destruct (Qlt_le_dec lat_min lat_max) as [Hlt|Hle]; [lra|].
        exfalso. apply Hd. lra. }
      set (norm := ((latency h - lat_min) / (lat_max - lat_min))%Q).
      assert (Hn0 : (0 <= norm)%Q).
      { unfold norm. apply Qle_shift_div_l; [exact Hgap|]. lra. }
      assert (Hn1 : (norm <= 1)%Q).
      { unfold norm. apply Qle_shift_div_r; [exact Hgap|]. lra. }
      split; [|split; [intros; contradiction|]].
      * split; nra.
      * intros _ Heq _.
        assert (Hone : (norm == 1)%Q).
        { unfold norm. rewrite Heq. field. lra. }
        rewrite Hone. ring.
Qed.

Lemma position_in_band_witness :
  (inject_Z 600 * (1 # 10)
   <= snd (position 800 600 (len Sample.three_hops)
             (fst (lat_range Sample.three_hops))
             (snd (lat_range Sample.three_hops)) (mkHop 3 "10.0.0.9" 1))
   <= inject_Z 600 * (9 # 10))%Q.
Proof.
  apply (position_in_band 800 600 Sample.three_hops (mkHop 3 "10.0.0.9" 1)).
  - vm_compute. discriminate.
  - right. right. left. reflexivity.
  - right. vm_compute. discriminate.
Defined.

(** X16.  With the method "tracert" on a platform whose name starts with
    "win", when the external-tool strategy returns at least one record,
    [trace] returns its result as it is: the raw-probe strategy is not run,
    no probe is sent and [conf.iface] is not written. *)
Theorem trace_returns_tool_result E self w h hs w'
  (Hmethod : method self = "tracert")
  (Hplatform : Py.startswith (sys_platform E) "win" = true)
  (Htool : _tracert_trace E self w = (Ok (h :: hs), w')) :
  trace E self w = (Ok (h :: hs), w')
  /\ wire w' = wire w
  /\ conf_iface w' = conf_iface w.
Proof.
  destruct (tracert_trace_frame E self w) as [Hc Hw].
  rewrite Htool in Hc, Hw. simpl in Hc, Hw.
  split; [|auto].
  unfold trace. rewrite Hmethod, Hplatform. simpl.
  unfold bind. now rewrite Htool.
Qed.

Lemma trace_returns_tool_result_witness :
  trace (Sample.windows_tool 0 Sample.line_1) (init "10.0.0.9") Sample.w0
  = (Ok (mkHop 1 "192.168.1.1" 3 :: []), Sample.w0).
Proof.
  apply (trace_returns_tool_result (Sample.windows_tool 0 Sample.line_1)
           (init "10.0.0.9") Sample.w0);
    [reflexivity | reflexivity | vm_compute; reflexivity].
Defined.
